(** * XEP-0191 blocking command of jackal: module/xep_0191.go

    A shallow embedding of the blocking-command IQ handler
    ([sendBlockList], [block], [unblock], [pushIQ],
    [broadcastPresenceMatching], [isJIDInBlockList], [isSubscribedFrom],
    [extractItemJIDs], [MatchesIQ], [ProcessIQ]) together with the
    collaborators it calls (packages xml, model, storage, c2s, log, uuid),
    and the properties of the handler proved over it.

    The handler is stateful: it reads and writes the storage, reads the
    registry of streams, mutates the context of its own stream and sends
    stanzas.  It is embedded in a state monad over a [World]; its calls to
    the storage, to the stream manager and to the logger, and every
    [SendElement], are also recorded, in program order, as [Event]s. *)

From Stdlib Require Import String List Bool Arith Lia.
Import ListNotations.
Open Scope string_scope.
Open Scope list_scope.

(** Go's [error] values; only their presence matters to the handler. *)
Definition error := string.

(** A Go result pair [(v, err)] with [err == nil] ([Ok v]) or not ([Err e]). *)
Inductive result (A : Type) : Type :=
| Ok (v : A)
| Err (e : error).
Arguments Ok {A} v.
Arguments Err {A} e.

(** ** What the source takes from packages whose code is not in the file

    JID pointers (Go's pointer to xml.JID), their parser and printer, the
    directory's matching of a stream against a looked-up JID and the UUID
    generator are used by the handler through their signatures only; they
    are parameters of the development.  The methods and the matching are
    functions of their arguments here: on a pointer that is not nil they
    return.  What they do on the nil pointer is decided by packages xml
    and c2s and not by the handler; the only place where the handler can
    hand them the nil pointer is the loop of the clear-all unblock, when
    a stored JID does not parse. *)
Class Externals : Type := {
  (** values of Go's type pointer-to-xml.JID, nil included *)
  JID : Type;
  (** the nil pointer *)
  nilJID : JID;
  (** [xml.NewJIDString(str, skipStringPrep)]: the pointer and the error *)
  NewJIDString : string -> bool -> JID * option error;
  (** the pointer returned together with an error is nil *)
  NewJIDString_nil : forall (str : string) (skipStringPrep : bool) (err : error),
    snd (NewJIDString str skipStringPrep) = Some err ->
    fst (NewJIDString str skipStringPrep) = nilJID;
  (** the method [String()] of a JID *)
  JID_String : JID -> string;
  (** the method [ToBareJID()] of a JID *)
  ToBareJID : JID -> JID;
  (** whether a registered stream bound to the second JID is one of
      [c2s.Instance().StreamsMatchingJID(first)] *)
  JIDMatches : JID -> JID -> bool;
  (** the n-th value returned by [uuid.New()] *)
  uuid_New : nat -> string
}.

(** ** Package xml *)
Module xml.

(** Modelled from the spec: package xml is not in the source file.  An
    element has a name, attributes and child elements ("item sub-elements
    with an address attribute"); the functions below are the accessors and
    constructors the handler calls. *)
#[warnings="-register-all"]
Inductive XElement : Type :=
| Element (name : string) (attrs : list (string * string)) (elems : list XElement).

Definition Name (e : XElement) : string := let (n, _, _) := e in n.
Definition Attributes (e : XElement) : list (string * string) := let (_, a, _) := e in a.
Definition Elements (e : XElement) : list XElement := let (_, _, c) := e in c.

Definition NewElementName (name : string) : XElement := Element name [] [].

(** Modelled from the spec: the namespace of an element is not in the
    source file; it is kept as the attribute [xmlns]. *)
Definition NewElementNamespace (name ns : string) : XElement :=
  Element name [("xmlns", ns)] [].

(** [attrs.Get(label)]: the value of the attribute, or the empty string. *)
Fixpoint Get (label : string) (attrs : list (string * string)) : string :=
  match attrs with
  | [] => EmptyString
  | (k, v) :: rest => if String.eqb k label then v else Get label rest
  end.

Definition Namespace (e : XElement) : string := Get "xmlns" (Attributes e).

Fixpoint setAttr (label value : string) (attrs : list (string * string)) :=
  match attrs with
  | [] => [(label, value)]
  | (k, v) :: rest =>
      if String.eqb k label then (k, value) :: rest
      else (k, v) :: setAttr label value rest
  end.

Definition SetAttribute (label value : string) (e : XElement) : XElement :=
  Element (Name e) (setAttr label value (Attributes e)) (Elements e).

Definition AppendElement (child : XElement) (e : XElement) : XElement :=
  Element (Name e) (Attributes e) (Elements e ++ [child]).

(** [elems.Children(name)] *)
Definition Children (name : string) (elems : list XElement) : list XElement :=
  filter (fun c => String.eqb (Name c) name) elems.

(** [elems.ChildNamespace(name, ns)]; [None] is Go's nil. *)
Definition ChildNamespace (name ns : string) (elems : list XElement) : option XElement :=
  find (fun c => String.eqb (Name c) name && String.eqb (Namespace c) ns) elems.

(** [elems.All()] *)
Definition All (elems : list XElement) : list XElement := elems.

(** Modelled from the spec: the type constants of package xml are not in
    the source file; the spec names the request kinds [get] and [set] and
    the presence kinds available and unavailable. *)
Definition GetType : string := "get".
Definition SetType : string := "set".
Definition ResultType : string := "result".
Definition AvailableType : string := "available".
Definition UnavailableType : string := "unavailable".

(** Modelled from the spec: an IQ stanza, as far as the handler uses it:
    identifier, type and payload elements. *)
Record IQ : Type := mkIQ {
  IQ_ID : string;
  IQ_Type : string;
  IQ_Elements : list XElement
}.

Definition NewIQType (identifier type : string) : IQ := mkIQ identifier type [].
Definition IQ_AppendElement (child : XElement) (iq : IQ) : IQ :=
  mkIQ (IQ_ID iq) (IQ_Type iq) (IQ_Elements iq ++ [child]).
Definition IsGet (iq : IQ) : bool := String.eqb (IQ_Type iq) GetType.
Definition IsSet (iq : IQ) : bool := String.eqb (IQ_Type iq) SetType.

(** [iq.ResultIQ()]: the empty result reply to [iq]. *)
Definition ResultIQ (iq : IQ) : IQ := mkIQ (IQ_ID iq) ResultType [].

(** The stanza error conditions the handler replies with. *)
Inductive StanzaError : Type :=
| ErrBadRequest
| ErrJidMalformed
| ErrInternalServerError.

Section WithExternals.
Context {E : Externals}.

(** A presence stanza: its sender, its recipient, its type and its
    payload.  Package xml is not in the source file; it declares
    [NewPresence(from, to, presenceType)], the first argument being the
    sender and the second the recipient.  The handler's one call,
    [NewPresence(stm.JID(), x.stm.JID().ToBareJID(), presenceType)], agrees
    with that reading: the stanza built with the JID of [stm] first is then
    given the payload of the presence of that same stream [stm], so it is
    the presence of [stm], addressed to the bare JID of the handler's own
    stream. *)
Record Presence : Type := mkPresence {
  Presence_From : JID;
  Presence_To : JID;
  Presence_Type : string;
  Presence_Elements : list XElement
}.

Definition NewPresence (from to : JID) (presenceType : string) : Presence :=
  mkPresence from to presenceType [].

Definition AppendElements (elems : list XElement) (p : Presence) : Presence :=
  mkPresence (Presence_From p) (Presence_To p) (Presence_Type p)
             (Presence_Elements p ++ elems).

(** What [SendElement] can be given by the handler. *)
Inductive Stanza : Type :=
| IQStanza (iq : IQ)
| IQError (iq : IQ) (cond : StanzaError)
| PresenceStanza (p : Presence).

Definition BadRequestError (iq : IQ) : Stanza := IQError iq ErrBadRequest.
Definition JidMalformedError (iq : IQ) : Stanza := IQError iq ErrJidMalformed.
Definition InternalServerError (iq : IQ) : Stanza := IQError iq ErrInternalServerError.
End WithExternals.

End xml.

(** ** Package model *)
Module model.

(** [model.BlockListItem{Username, JID}] *)
Record BlockListItem : Type := mkBlockListItem {
  bli_Username : string;
  bli_JID : string
}.

(** [model.RosterItem]: the fields the handler and the storage read. *)
Record RosterItem : Type := mkRosterItem {
  ri_Username : string;
  ri_JID : string;
  ri_Subscription : string
}.

Definition sameItem (a b : BlockListItem) : bool :=
  String.eqb (bli_Username a) (bli_Username b) && String.eqb (bli_JID a) (bli_JID b).

End model.

(** ** Package storage

    The storage is not in the source file: the handler calls it through
    [storage.Instance()].  It is modelled from the spec's BlockListStore
    ("durable per-user set of blocked addresses", "unique per (owner,
    blocked)") and RosterView. *)
Module storage.
Import model.

(** The kinds of call the handler makes. *)
Inductive Op : Type :=
| OpFetchRosterItems
| OpFetchBlockListItems
| OpInsertOrUpdateBlockListItems
| OpDeleteBlockList
| OpDeleteBlockListItems.

(** Modelled from the spec: the state of the storage, which is not in the
    source file: the table of block-list items, the table of roster items,
    and which calls fail ("storage read/write failure at any point"). *)
Record Storage : Type := mkStorage {
  blockListItems : list BlockListItem;
  rosterItems : list RosterItem;
  (** the error, if any, with which each kind of call fails *)
  failure : Op -> option error
}.

Definition setBlockListItems (l : list BlockListItem) (st : Storage) : Storage :=
  mkStorage l (rosterItems st) (failure st).

(** Modelled from the spec: the block set of one owner
    ([BlockListStore.Fetch(owner)]). *)
Definition itemsOf (username : string) (l : list BlockListItem) : list BlockListItem :=
  filter (fun it => String.eqb (bli_Username it) username) l.

(** Modelled from the spec: the roster relations of one owner
    ([RosterView.Fetch(owner)]). *)
Definition rosterOf (username : string) (l : list RosterItem) : list RosterItem :=
  filter (fun ri => String.eqb (ri_Username ri) username) l.

(** Modelled from the spec: storing one item.  The source only names the
    call, [InsertOrUpdateBlockListItems]; by the spec the store holds a
    set, "unique per (owner, blocked)": an item already stored is left in
    place, a new one is added. *)
Definition insertOrUpdate (tbl : list BlockListItem) (it : BlockListItem) : list BlockListItem :=
  if existsb (sameItem it) tbl then tbl else tbl ++ [it].

Definition insertOrUpdateAll (items tbl : list BlockListItem) : list BlockListItem :=
  fold_left insertOrUpdate items tbl.

(** Modelled from the spec: [BlockListStore.DeleteItems(items)] removes the
    listed (owner, blocked) pairs. *)
Definition deleteItems (items tbl : list BlockListItem) : list BlockListItem :=
  filter (fun it => negb (existsb (sameItem it) items)) tbl.

(** Modelled from the spec: [BlockListStore.DeleteAll(owner)] removes every
    item of the owner. *)
Definition deleteOwner (username : string) (tbl : list BlockListItem) : list BlockListItem :=
  filter (fun it => negb (String.eqb (bli_Username it) username)) tbl.

(** The calls: each fails with its error when the storage says so, and
    changes nothing then; a write returns the storage it leaves. *)
Definition FetchRosterItems (username : string) (st : Storage) : result (list RosterItem) :=
  match failure st OpFetchRosterItems with
  | Some e => Err e
  | None => Ok (rosterOf username (rosterItems st))
  end.

Definition FetchBlockListItems (username : string) (st : Storage) : result (list BlockListItem) :=
  match failure st OpFetchBlockListItems with
  | Some e => Err e
  | None => Ok (itemsOf username (blockListItems st))
  end.

Definition InsertOrUpdateBlockListItems (items : list BlockListItem) (st : Storage)
  : result Storage :=
  match failure st OpInsertOrUpdateBlockListItems with
  | Some e => Err e
  | None => Ok (setBlockListItems (insertOrUpdateAll items (blockListItems st)) st)
  end.

Definition DeleteBlockList (username : string) (st : Storage) : result Storage :=
  match failure st OpDeleteBlockList with
  | Some e => Err e
  | None => Ok (setBlockListItems (deleteOwner username (blockListItems st)) st)
  end.

Definition DeleteBlockListItems (items : list BlockListItem) (st : Storage)
  : result Storage :=
  match failure st OpDeleteBlockListItems with
  | Some e => Err e
  | None => Ok (setBlockListItems (deleteItems items (blockListItems st)) st)
  end.

(** A call to the storage, as recorded in the trace. *)
Inductive Call : Type :=
| CallFetchRosterItems (username : string)
| CallFetchBlockListItems (username : string)
| CallInsertOrUpdateBlockListItems (items : list BlockListItem)
| CallDeleteBlockList (username : string)
| CallDeleteBlockListItems (items : list BlockListItem).

Definition isWrite (c : Call) : bool :=
  match c with
  | CallFetchRosterItems _ | CallFetchBlockListItems _ => false
  | _ => true
  end.

End storage.

(** ** Package c2s: streams and their registry *)
Module c2s.
Section WithExternals.
Context {E : Externals}.

(** The state of one stream object, as far as the handler reads or
    writes it: user name, bound JID, the boolean entries of its context
    and the last presence it sent (nil when none). *)
Record StreamState : Type := mkStreamState {
  Username : string;
  StreamJID : JID;
  Context : list (string * bool);
  Presence : option xml.Presence
}.

(** [ctx.Bool(key)]: false when the key was never set. *)
Fixpoint Bool (key : string) (ctx : list (string * bool)) : bool :=
  match ctx with
  | [] => false
  | (k, v) :: rest => if String.eqb k key then v else Bool key rest
  end.

(** [ctx.SetBool(value, key)] *)
Definition SetBool (value : bool) (key : string) (ctx : list (string * bool)) :=
  (key, value) :: ctx.

Definition setContext (ctx : list (string * bool)) (s : StreamState) : StreamState :=
  mkStreamState (Username s) (StreamJID s) ctx (Presence s).

(** A [c2s.Stream] value is a reference to a stream object. *)
Definition Stream : Type := nat.

(** Modelled from the spec: the stream manager is not in the source
    file.  It is the spec's SessionDirectory: the stream objects and
    the list of those that are registered (live). *)
Record Manager : Type := mkManager {
  object : Stream -> StreamState;
  registered : list Stream
}.

Definition update (stm : Stream) (f : StreamState -> StreamState) (m : Manager) : Manager :=
  mkManager (fun r => if Nat.eqb r stm then f (object m r) else object m r)
            (registered m).

(** Modelled from the spec: [c2s.Instance().StreamsMatchingJID(jid)] is
    the spec's [SessionDirectory.SessionsFor(address)]: the registered
    streams that match the address, in registration order. *)
Definition StreamsMatchingJID (jid : JID) (m : Manager) : list Stream :=
  filter (fun r => JIDMatches jid (StreamJID (object m r))) (registered m).
End WithExternals.
End c2s.


(** ** The world the handler runs in, and the monad of the embedding *)
Section Handler.
Context {E : Externals}.

Import model.

(** The storage, the stream manager, and the number of UUIDs drawn so far. *)
Record World : Type := mkWorld {
  store : storage.Storage;
  manager : c2s.Manager;
  uuids : nat
}.

(** The calls the handler makes to its collaborators, in program order. *)
Inductive Event : Type :=
| LogError (err : error)
| StorageCall (c : storage.Call)
| LookupStreams (jid : JID)
| SendElement (stm : c2s.Stream) (e : xml.Stanza)
| Route (p : xml.Presence)
| ReloadBlockList (username : string).

(** The outcome of running a computation: its value, the world it leaves
    and the events it emitted. *)
Record Outcome (A : Type) : Type := mkOutcome {
  value : A;
  world : World;
  events : list Event
}.
Arguments mkOutcome {A} value world events.
Arguments value {A} o.
Arguments world {A} o.
Arguments events {A} o.

Definition M (A : Type) : Type := World -> Outcome A.

Definition ret {A : Type} (a : A) : M A := fun w => mkOutcome a w [].

Definition bind {A B : Type} (m : M A) (f : A -> M B) : M B :=
  fun w =>
    let (a, w1, evs1) := m w in
    let (b, w2, evs2) := f a w1 in
    mkOutcome b w2 (evs1 ++ evs2).

Notation "x <- c1 ;; c2" := (bind c1 (fun x => c2))
  (at level 61, c1 at next level, right associativity).
Notation "c1 ;; c2" := (bind c1 (fun _ => c2))
  (at level 61, right associativity).

(** A Go [for _, a := range l] loop whose body only has effects. *)
Fixpoint forM_ {A : Type} (l : list A) (body : A -> M unit) : M unit :=
  match l with
  | [] => ret tt
  | a :: rest => body a ;; forM_ rest body
  end.

(** A Go [for _, a := range l] loop that also updates a local variable. *)
Fixpoint foldM {A B : Type} (body : B -> A -> M B) (l : list A) (b : B) : M B :=
  match l with
  | [] => ret b
  | a :: rest => b' <- body b a ;; foldM body rest b'
  end.

Definition emit (ev : Event) : M unit := fun w => mkOutcome tt w [ev].

(** [log.Error(err)] *)
Definition log_Error (err : error) : M unit := emit (LogError err).

(** *** Calls to [storage.Instance()] *)
Definition storage_FetchRosterItems (username : string) : M (result (list RosterItem)) :=
  fun w => mkOutcome (storage.FetchRosterItems username (store w)) w
                     [StorageCall (storage.CallFetchRosterItems username)].

Definition storage_FetchBlockListItems (username : string) : M (result (list BlockListItem)) :=
  fun w => mkOutcome (storage.FetchBlockListItems username (store w)) w
                     [StorageCall (storage.CallFetchBlockListItems username)].

Definition withStore (w : World) (st : storage.Storage) : World :=
  mkWorld st (manager w) (uuids w).

(** A write to the storage: the Go call returns the error or nil. *)
Definition storageWrite (c : storage.Call) (r : result storage.Storage) : M (option error) :=
  fun w =>
    match r with
    | Ok st => mkOutcome None (withStore w st) [StorageCall c]
    | Err e => mkOutcome (Some e) w [StorageCall c]
    end.

Definition storage_InsertOrUpdateBlockListItems (items : list BlockListItem) : M (option error) :=
  fun w =>
    storageWrite (storage.CallInsertOrUpdateBlockListItems items)
                 (storage.InsertOrUpdateBlockListItems items (store w)) w.

Definition storage_DeleteBlockList (username : string) : M (option error) :=
  fun w =>
    storageWrite (storage.CallDeleteBlockList username)
                 (storage.DeleteBlockList username (store w)) w.

Definition storage_DeleteBlockListItems (items : list BlockListItem) : M (option error) :=
  fun w =>
    storageWrite (storage.CallDeleteBlockListItems items)
                 (storage.DeleteBlockListItems items (store w)) w.

(** *** Methods of a [c2s.Stream] *)
Definition stm_Username (stm : c2s.Stream) : M string :=
  fun w => mkOutcome (c2s.Username (c2s.object (manager w) stm)) w [].

Definition stm_JID (stm : c2s.Stream) : M JID :=
  fun w => mkOutcome (c2s.StreamJID (c2s.object (manager w) stm)) w [].

Definition stm_Presence (stm : c2s.Stream) : M (option xml.Presence) :=
  fun w => mkOutcome (c2s.Presence (c2s.object (manager w) stm)) w [].

(** [stm.Context().Bool(key)] *)
Definition stm_Context_Bool (stm : c2s.Stream) (key : string) : M bool :=
  fun w => mkOutcome (c2s.Bool key (c2s.Context (c2s.object (manager w) stm))) w [].

(** [stm.Context().SetBool(value, key)]: the stream object itself changes,
    so every holder of the reference sees the new entry. *)
Definition stm_Context_SetBool (stm : c2s.Stream) (v : bool) (key : string) : M unit :=
  fun w =>
    mkOutcome tt
      (mkWorld (store w)
               (c2s.update stm
                  (fun s => c2s.setContext (c2s.SetBool v key (c2s.Context s)) s)
                  (manager w))
               (uuids w))
      [].

Definition stm_SendElement (stm : c2s.Stream) (e : xml.Stanza) : M unit :=
  emit (SendElement stm e).

(** *** Calls to [c2s.Instance()] *)
Definition c2s_StreamsMatchingJID (jid : JID) : M (list c2s.Stream) :=
  fun w => mkOutcome (c2s.StreamsMatchingJID jid (manager w)) w [LookupStreams jid].

Definition c2s_Route (p : xml.Presence) : M unit := emit (Route p).

Definition c2s_ReloadBlockList (username : string) : M unit :=
  emit (ReloadBlockList username).

(** [uuid.New()] *)
Definition uuid_draw : M string :=
  fun w => mkOutcome (uuid_New (uuids w)) (mkWorld (store w) (manager w) (S (uuids w))) [].

(** ** module/xep_0191.go *)

Definition blockingCommandNamespace : string := "urn:xmpp:blocking".

Definition xep191RequestedContextKey : string := "xep_191:requested".

(** Modelled from the spec: the subscription constants of package module
    are declared in another file; the spec gives the subscription states as
    none, to, from and both. *)
Definition subscriptionNone : string := "none".
Definition subscriptionTo : string := "to".
Definition subscriptionFrom : string := "from".
Definition subscriptionBoth : string := "both".

(** The handler module: it holds the stream it serves. *)
Record XEPBlockingCommand : Type := mkXEPBlockingCommand {
  stm : c2s.Stream
}.

Definition NewXEPBlockingCommand (s : c2s.Stream) : XEPBlockingCommand :=
  mkXEPBlockingCommand s.

Definition AssociatedNamespaces (x : XEPBlockingCommand) : list string :=
  [blockingCommandNamespace].

Definition isSome {A : Type} (o : option A) : bool :=
  match o with Some _ => true | None => false end.

Definition MatchesIQ (x : XEPBlockingCommand) (iq : xml.IQ) : bool :=
  let e := xml.IQ_Elements iq in
  let blockList := xml.ChildNamespace "blocklist" blockingCommandNamespace e in
  let block := xml.ChildNamespace "block" blockingCommandNamespace e in
  let unblock := xml.ChildNamespace "unblock" blockingCommandNamespace e in
  (xml.IsGet iq && isSome blockList) || (xml.IsSet iq && (isSome block || isSome unblock)).

Definition isJIDInBlockList (jid : JID) (blItems : list BlockListItem) : bool :=
  existsb (fun blItem => String.eqb (bli_JID blItem) (JID_String jid)) blItems.

Definition isSubscribedFrom (jid : JID) (ris : list RosterItem) : bool :=
  let str := JID_String jid in
  existsb (fun ri =>
             String.eqb (ri_JID ri) str
             && (String.eqb (ri_Subscription ri) subscriptionFrom
                 || String.eqb (ri_Subscription ri) subscriptionBoth))
          ris.

(** The loop of [extractItemJIDs], [ret] being the slice built so far. *)
Fixpoint extractItemJIDs_from (items : list xml.XElement) (ret : list JID) : result (list JID) :=
  match items with
  | [] => Ok ret
  | item :: rest =>
      let (j, err) := NewJIDString (xml.Get "jid" (xml.Attributes item)) false in
      match err with
      | Some e => Err e
      | None => extractItemJIDs_from rest (ret ++ [j])
      end
  end.

Definition extractItemJIDs (items : list xml.XElement) : result (list JID) :=
  extractItemJIDs_from items [].

(** The body of the loop of [broadcastPresenceMatching] for one stream. *)
Definition broadcastPresenceTo (x : XEPBlockingCommand) (jid : JID) (ris : list RosterItem)
    (presenceType : string) (s : c2s.Stream) : M unit :=
  if negb (isSubscribedFrom jid ris) then ret tt
  else
    sj <- stm_JID s ;;
    xj <- stm_JID (stm x) ;;
    let p := xml.NewPresence sj (ToBareJID xj) presenceType in
    presence <- stm_Presence s ;;
    let p :=
      match presence with
      | Some pr =>
          if String.eqb presenceType xml.AvailableType
          then xml.AppendElements (xml.All (xml.Presence_Elements pr)) p
          else p
      | None => p
      end in
    c2s_Route p.

Definition broadcastPresenceMatching (x : XEPBlockingCommand) (jid : JID)
    (ris : list RosterItem) (presenceType : string) : M unit :=
  stms <- c2s_StreamsMatchingJID jid ;;
  forM_ stms (broadcastPresenceTo x jid ris presenceType).

(** The body of the loop of [pushIQ] for one stream. *)
Definition pushIQTo (elem : xml.XElement) (s : c2s.Stream) : M unit :=
  requested <- stm_Context_Bool s xep191RequestedContextKey ;;
  if negb requested then ret tt
  else
    id <- uuid_draw ;;
    let iq := xml.NewIQType id xml.SetType in
    let iq := xml.IQ_AppendElement elem iq in
    stm_SendElement s (xml.IQStanza iq).

Definition pushIQ (x : XEPBlockingCommand) (elem : xml.XElement) : M unit :=
  xj <- stm_JID (stm x) ;;
  stms <- c2s_StreamsMatchingJID (ToBareJID xj) ;;
  forM_ stms (pushIQTo elem).

Definition sendBlockList (x : XEPBlockingCommand) (iq : xml.IQ) : M unit :=
  username <- stm_Username (stm x) ;;
  fetched <- storage_FetchBlockListItems username ;;
  match fetched with
  | Err err =>
      log_Error err ;;
      stm_SendElement (stm x) (xml.InternalServerError iq)
  | Ok blItms =>
      let blockList :=
        fold_left
          (fun blockList blItm =>
             let itElem := xml.NewElementName "item" in
             let itElem := xml.SetAttribute "jid" (bli_JID blItm) itElem in
             xml.AppendElement itElem blockList)
          blItms
          (xml.NewElementNamespace "blocklist" blockingCommandNamespace) in
      let reply := xml.ResultIQ iq in
      let reply := xml.IQ_AppendElement blockList reply in
      stm_SendElement (stm x) (xml.IQStanza reply) ;;
      stm_Context_SetBool (stm x) true xep191RequestedContextKey
  end.

(** The body of the loop of [block] for one requested JID. *)
Definition blockOne (x : XEPBlockingCommand) (ris : list RosterItem)
    (blItms : list BlockListItem) (bl : list BlockListItem) (j : JID)
  : M (list BlockListItem) :=
  if negb (isJIDInBlockList j blItms) then
    broadcastPresenceMatching x j ris xml.UnavailableType ;;
    username <- stm_Username (stm x) ;;
    ret (bl ++ [mkBlockListItem username (JID_String j)])
  else ret bl.

Definition block (x : XEPBlockingCommand) (iq : xml.IQ) (blockElem : xml.XElement) : M unit :=
  let items := xml.Children "item" (xml.Elements blockElem) in
  if Nat.eqb (length items) 0 then
    stm_SendElement (stm x) (xml.BadRequestError iq)
  else
    match extractItemJIDs items with
    | Err err =>
        log_Error err ;;
        stm_SendElement (stm x) (xml.JidMalformedError iq)
    | Ok jds =>
        username <- stm_Username (stm x) ;;
        fetchedRis <- storage_FetchRosterItems username ;;
        match fetchedRis with
        | Err err =>
            log_Error err ;;
            stm_SendElement (stm x) (xml.InternalServerError iq)
        | Ok ris =>
            username <- stm_Username (stm x) ;;
            fetchedBl <- storage_FetchBlockListItems username ;;
            match fetchedBl with
            | Err err =>
                log_Error err ;;
                stm_SendElement (stm x) (xml.InternalServerError iq)
            | Ok blItms =>
                bl <- foldM (blockOne x ris blItms) jds [] ;;
                inserted <-
                  (if Nat.ltb 0 (length bl)
                   then storage_InsertOrUpdateBlockListItems bl
                   else ret None) ;;
                match inserted with
                | Some err =>
                    log_Error err ;;
                    stm_SendElement (stm x) (xml.InternalServerError iq)
                | None =>
                    stm_SendElement (stm x) (xml.IQStanza (xml.ResultIQ iq)) ;;
                    pushIQ x blockElem ;;
                    username <- stm_Username (stm x) ;;
                    c2s_ReloadBlockList username
                end
            end
        end
    end.

(** The body of the loop of the clear-all branch of [unblock]: the error of
    [NewJIDString] is dropped and the pointer is used as it is, [nilJID]
    when the stored JID did not parse.  What [StreamsMatchingJID] and
    [String] do with the nil pointer is in packages c2s and xml; the
    embedding follows the handler up to that call and lets it return. *)
Definition unblockStored (x : XEPBlockingCommand) (ris : list RosterItem)
    (blItm : BlockListItem) : M unit :=
  let (j, _) := NewJIDString (bli_JID blItm) true in
  broadcastPresenceMatching x j ris xml.AvailableType.

(** The body of the loop of the other branch of [unblock]. *)
Definition unblockOne (x : XEPBlockingCommand) (ris : list RosterItem)
    (blItms : list BlockListItem) (bl : list BlockListItem) (j : JID)
  : M (list BlockListItem) :=
  if isJIDInBlockList j blItms then
    broadcastPresenceMatching x j ris xml.AvailableType ;;
    username <- stm_Username (stm x) ;;
    ret (bl ++ [mkBlockListItem username (JID_String j)])
  else ret bl.

(** The end of [unblock], shared by its two branches. *)
Definition unblockDone (x : XEPBlockingCommand) (iq : xml.IQ) (unblockElem : xml.XElement)
  : M unit :=
  stm_SendElement (stm x) (xml.IQStanza (xml.ResultIQ iq)) ;;
  pushIQ x unblockElem ;;
  username <- stm_Username (stm x) ;;
  c2s_ReloadBlockList username.

Definition unblock (x : XEPBlockingCommand) (iq : xml.IQ) (unblockElem : xml.XElement)
  : M unit :=
  username <- stm_Username (stm x) ;;
  fetchedRis <- storage_FetchRosterItems username ;;
  match fetchedRis with
  | Err err =>
      log_Error err ;;
      stm_SendElement (stm x) (xml.InternalServerError iq)
  | Ok ris =>
      username <- stm_Username (stm x) ;;
      fetchedBl <- storage_FetchBlockListItems username ;;
      match fetchedBl with
      | Err err =>
          log_Error err ;;
          stm_SendElement (stm x) (xml.InternalServerError iq)
      | Ok blItms =>
          let items := xml.Children "item" (xml.Elements unblockElem) in
          if Nat.eqb (length items) 0 then
            username <- stm_Username (stm x) ;;
            deleted <- storage_DeleteBlockList username ;;
            match deleted with
            | Some err =>
                log_Error err ;;
                stm_SendElement (stm x) (xml.InternalServerError iq)
            | None =>
                forM_ blItms (unblockStored x ris) ;;
                unblockDone x iq unblockElem
            end
          else
            match extractItemJIDs items with
            | Err err =>
                log_Error err ;;
                stm_SendElement (stm x) (xml.JidMalformedError iq)
            | Ok jds =>
                bl <- foldM (unblockOne x ris blItms) jds [] ;;
                deleted <- storage_DeleteBlockListItems bl ;;
                match deleted with
                | Some err =>
                    log_Error err ;;
                    stm_SendElement (stm x) (xml.InternalServerError iq)
                | None => unblockDone x iq unblockElem
                end
            end
      end
  end.

Definition ProcessIQ (x : XEPBlockingCommand) (iq : xml.IQ) : M unit :=
  if xml.IsGet iq then sendBlockList x iq
  else if xml.IsSet iq then
    let e := xml.IQ_Elements iq in
    match xml.ChildNamespace "block" blockingCommandNamespace e with
    | Some blockElem => block x iq blockElem
    | None =>
        match xml.ChildNamespace "unblock" blockingCommandNamespace e with
        | Some unblockElem => unblock x iq unblockElem
        | None => ret tt
        end
    end
  else ret tt.


(** ** How the loops of the handler run *)

(** The user name of the stream the handler serves. *)
Definition owner (x : XEPBlockingCommand) (w : World) : string :=
  c2s.Username (c2s.object (manager w) (stm x)).

(** The bare JID of the stream the handler serves. *)
Definition ownerBareJID (x : XEPBlockingCommand) (w : World) : JID :=
  ToBareJID (c2s.StreamJID (c2s.object (manager w) (stm x))).

(** The live sessions of an address: the registered streams the directory
    returns for it. *)
Definition sessionsOf (jid : JID) (w : World) : list c2s.Stream :=
  c2s.StreamsMatchingJID jid (manager w).

(** The value of the push flag of a stream. *)
Definition pushEnabled (w : World) (s : c2s.Stream) : bool :=
  c2s.Bool xep191RequestedContextKey (c2s.Context (c2s.object (manager w) s)).

(** The presence [broadcastPresenceMatching] routes for the stream [s]. *)
Definition routedPresence (x : XEPBlockingCommand) (presenceType : string) (w : World)
    (s : c2s.Stream) : xml.Presence :=
  let p := xml.NewPresence (c2s.StreamJID (c2s.object (manager w) s))
                           (ownerBareJID x w) presenceType in
  match c2s.Presence (c2s.object (manager w) s) with
  | Some pr =>
      if String.eqb presenceType xml.AvailableType
      then xml.AppendElements (xml.Presence_Elements pr) p
      else p
  | None => p
  end.

(** The events of one call of [broadcastPresenceMatching]. *)
Definition broadcastEvents (x : XEPBlockingCommand) (ris : list RosterItem)
    (presenceType : string) (w : World) (jid : JID) : list Event :=
  LookupStreams jid ::
  (if isSubscribedFrom jid ris
   then map (fun s => Route (routedPresence x presenceType w s)) (sessionsOf jid w)
   else []).

(** The events of a run of broadcasts, one per address. *)
Definition broadcasts (x : XEPBlockingCommand) (ris : list RosterItem)
    (presenceType : string) (w : World) (jids : list JID) : list Event :=
  flat_map (broadcastEvents x ris presenceType w) jids.

(** The push stanza with the given identifier. *)
Definition pushStanza (id : string) (elem : xml.XElement) : xml.Stanza :=
  xml.IQStanza (xml.mkIQ id xml.SetType [elem]).

(** The events of the loop of [pushIQ] over the streams [l], the first
    push taking the [n]-th UUID. *)
Fixpoint pushEvents (elem : xml.XElement) (l : list c2s.Stream) (n : nat) : list Event :=
  match l with
  | [] => []
  | s :: rest => SendElement s (pushStanza (uuid_New n) elem) :: pushEvents elem rest (S n)
  end.

(** The world after [k] more UUIDs were drawn. *)
Definition advance (k : nat) (w : World) : World :=
  Nat.iter k (fun w => mkWorld (store w) (manager w) (S (uuids w))) w.

(** The sessions [pushIQ] sends to. *)
Definition pushTargets (x : XEPBlockingCommand) (w : World) : list c2s.Stream :=
  filter (pushEnabled w) (sessionsOf (ownerBareJID x w) w).

Lemma store_advance (k : nat) (w : World) : store (advance k w) = store w.
Proof. induction k as [|k IH]; cbn; auto. Qed.

Lemma manager_advance (k : nat) (w : World) : manager (advance k w) = manager w.
Proof. induction k as [|k IH]; cbn; auto. Qed.

Lemma uuids_advance (k : nat) (w : World) : uuids (advance k w) = k + uuids w.
Proof. induction k as [|k IH]; cbn; auto. Qed.

Lemma advance_S (k : nat) (w : World) :
  advance k (mkWorld (store w) (manager w) (S (uuids w))) = advance (S k) w.
Proof.
  induction k as [|k IH]; [reflexivity|].
  change (advance (S k) ?v) with
    (let a := advance k v in mkWorld (store a) (manager a) (S (uuids a))).
  cbv zeta. rewrite IH. reflexivity.
Qed.

Lemma forM__same_world {A : Type} (body : A -> M unit) (ev : A -> list Event)
    (w : World) (l : list A) :
  (forall a, body a w = mkOutcome tt w (ev a)) ->
  forM_ l body w = mkOutcome tt w (flat_map ev l).
Proof.
  intros Hbody. induction l as [|a l IH]; [reflexivity|].
  cbn. unfold bind. rewrite Hbody. cbn. rewrite IH. reflexivity.
Qed.

Lemma broadcastPresenceTo_run x jid ris presenceType s w :
  broadcastPresenceTo x jid ris presenceType s w =
  mkOutcome tt w
    (if isSubscribedFrom jid ris then [Route (routedPresence x presenceType w s)] else []).
Proof.
  unfold broadcastPresenceTo, routedPresence, ownerBareJID.
  destruct (isSubscribedFrom jid ris); reflexivity.
Qed.

Lemma broadcastPresenceMatching_run x jid ris presenceType w :
  broadcastPresenceMatching x jid ris presenceType w =
  mkOutcome tt w (broadcastEvents x ris presenceType w jid).
Proof.
  unfold broadcastPresenceMatching, bind, broadcastEvents, sessionsOf. cbn.
  rewrite (forM__same_world _
             (fun s => if isSubscribedFrom jid ris
                       then [Route (routedPresence x presenceType w s)] else [])).
  - cbn. f_equal. f_equal.
    destruct (isSubscribedFrom jid ris).
    + induction (c2s.StreamsMatchingJID jid (manager w)); cbn; congruence.
    + induction (c2s.StreamsMatchingJID jid (manager w)); cbn; auto.
  - intros s. apply broadcastPresenceTo_run.
Qed.

Lemma pushIQTo_run elem s w :
  pushIQTo elem s w =
  if pushEnabled w s
  then mkOutcome tt (mkWorld (store w) (manager w) (S (uuids w)))
                 [SendElement s (pushStanza (uuid_New (uuids w)) elem)]
  else mkOutcome tt w [].
Proof.
  unfold pushIQTo, bind, stm_Context_Bool. cbn [value world events].
  fold (pushEnabled w s). destruct (pushEnabled w s); reflexivity.
Qed.

Lemma pushIQ_loop_run elem (l : list c2s.Stream) (w : World) :
  forM_ l (pushIQTo elem) w =
  mkOutcome tt (advance (length (filter (pushEnabled w) l)) w)
            (pushEvents elem (filter (pushEnabled w) l) (uuids w)).
Proof.
  revert w. induction l as [|s l IH]; intros w; [reflexivity|].
  cbn [forM_ filter]. unfold bind. rewrite pushIQTo_run.
  destruct (pushEnabled w s) eqn:Hs; cbn [value world events].
  - rewrite IH. cbn [value world events app length pushEvents uuids].
    replace (filter (pushEnabled (mkWorld (store w) (manager w) (S (uuids w)))) l)
      with (filter (pushEnabled w) l) by reflexivity.
    rewrite advance_S. reflexivity.
  - rewrite IH. reflexivity.
Qed.

Lemma pushIQ_run x elem w :
  pushIQ x elem w =
  mkOutcome tt (advance (length (pushTargets x w)) w)
            (LookupStreams (ownerBareJID x w) :: pushEvents elem (pushTargets x w) (uuids w)).
Proof.
  unfold pushIQ, bind. cbn [stm_JID c2s_StreamsMatchingJID value world events app].
  rewrite pushIQ_loop_run. reflexivity.
Qed.

(** The requested addresses [block] adds, and those [unblock] removes. *)
Definition toAdd (blItms : list BlockListItem) (jds : list JID) : list JID :=
  filter (fun j => negb (isJIDInBlockList j blItms)) jds.

Definition toRemove (blItms : list BlockListItem) (jds : list JID) : list JID :=
  filter (fun j => isJIDInBlockList j blItms) jds.

Definition itemFor (x : XEPBlockingCommand) (w : World) (j : JID) : BlockListItem :=
  mkBlockListItem (owner x w) (JID_String j).

Lemma blockOne_run x ris blItms bl j w :
  blockOne x ris blItms bl j w =
  if isJIDInBlockList j blItms then mkOutcome bl w []
  else mkOutcome (bl ++ [itemFor x w j]) w (broadcastEvents x ris xml.UnavailableType w j).
Proof.
  unfold blockOne. destruct (isJIDInBlockList j blItms); [reflexivity|].
  cbn [negb]. unfold bind. rewrite broadcastPresenceMatching_run.
  cbn. rewrite app_nil_r. reflexivity.
Qed.

Lemma unblockOne_run x ris blItms bl j w :
  unblockOne x ris blItms bl j w =
  if isJIDInBlockList j blItms
  then mkOutcome (bl ++ [itemFor x w j]) w (broadcastEvents x ris xml.AvailableType w j)
  else mkOutcome bl w [].
Proof.
  unfold unblockOne. destruct (isJIDInBlockList j blItms); [|reflexivity].
  unfold bind. rewrite broadcastPresenceMatching_run.
  cbn. rewrite app_nil_r. reflexivity.
Qed.

Lemma block_loop_run x ris blItms w (jds : list JID) (bl : list BlockListItem) :
  foldM (blockOne x ris blItms) jds bl w =
  mkOutcome (bl ++ map (itemFor x w) (toAdd blItms jds)) w
            (broadcasts x ris xml.UnavailableType w (toAdd blItms jds)).
Proof.
  revert bl. induction jds as [|j jds IH]; intros bl.
  - cbn. rewrite app_nil_r. reflexivity.
  - cbn [foldM toAdd filter]. unfold bind. rewrite blockOne_run.
    destruct (isJIDInBlockList j blItms) eqn:Hj;
      cbn [negb value world events]; rewrite IH; cbn [value world events map flat_map app].
    + reflexivity.
    + rewrite <- app_assoc. reflexivity.
Qed.

Lemma unblock_loop_run x ris blItms w (jds : list JID) (bl : list BlockListItem) :
  foldM (unblockOne x ris blItms) jds bl w =
  mkOutcome (bl ++ map (itemFor x w) (toRemove blItms jds)) w
            (broadcasts x ris xml.AvailableType w (toRemove blItms jds)).
Proof.
  revert bl. induction jds as [|j jds IH]; intros bl.
  - cbn. rewrite app_nil_r. reflexivity.
  - cbn [foldM toRemove filter]. unfold bind. rewrite unblockOne_run.
    destruct (isJIDInBlockList j blItms) eqn:Hj;
      cbn [negb value world events]; rewrite IH; cbn [value world events map flat_map app].
    + rewrite <- app_assoc. reflexivity.
    + reflexivity.
Qed.

(** The JID the clear-all branch of [unblock] broadcasts for a stored item. *)
Definition storedJID (blItm : BlockListItem) : JID :=
  fst (NewJIDString (bli_JID blItm) true).

Lemma unblockStored_run x ris w (blItms : list BlockListItem) :
  forM_ blItms (unblockStored x ris) w =
  mkOutcome tt w (broadcasts x ris xml.AvailableType w (map storedJID blItms)).
Proof.
  rewrite (forM__same_world _
             (fun blItm => broadcastEvents x ris xml.AvailableType w (storedJID blItm))).
  - f_equal. unfold broadcasts. induction blItms as [|b l IH]; cbn; [reflexivity|].
    rewrite IH. reflexivity.
  - intros blItm. unfold unblockStored, storedJID.
    destruct (NewJIDString (bli_JID blItm) true) as [j err]. cbn [fst].
    apply broadcastPresenceMatching_run.
Qed.

(** The events of the common end of a successful [block] or [unblock]: the
    result reply, the pushes and the reload signal. *)
Definition doneEvents (x : XEPBlockingCommand) (iq : xml.IQ) (elem : xml.XElement)
    (w : World) : list Event :=
  SendElement (stm x) (xml.IQStanza (xml.ResultIQ iq))
  :: LookupStreams (ownerBareJID x w)
  :: pushEvents elem (pushTargets x w) (uuids w)
  ++ [ReloadBlockList (owner x w)].

Definition failed (x : XEPBlockingCommand) (reply : xml.Stanza) (err : error) : list Event :=
  [LogError err; SendElement (stm x) reply].

Definition fetchRoster (x : XEPBlockingCommand) (w : World) : Event :=
  StorageCall (storage.CallFetchRosterItems (owner x w)).

Definition fetchBlockList (x : XEPBlockingCommand) (w : World) : Event :=
  StorageCall (storage.CallFetchBlockListItems (owner x w)).

(** The two reads [block] and [unblock] make before anything else. *)
Definition reads (x : XEPBlockingCommand) (w : World) : list Event :=
  [fetchRoster x w; fetchBlockList x w].

(** The world after a storage write that replaced the block-list table. *)
Definition written (tbl : list BlockListItem) (w : World) : World :=
  withStore w (storage.setBlockListItems tbl (store w)).

(** [block], with its loops in closed form. *)
Definition block_closed (x : XEPBlockingCommand) (iq : xml.IQ) (blockElem : xml.XElement)
    (w : World) : Outcome unit :=
  let items := xml.Children "item" (xml.Elements blockElem) in
  if Nat.eqb (length items) 0 then
    mkOutcome tt w [SendElement (stm x) (xml.BadRequestError iq)]
  else
    match extractItemJIDs items with
    | Err err => mkOutcome tt w (failed x (xml.JidMalformedError iq) err)
    | Ok jds =>
        match storage.FetchRosterItems (owner x w) (store w) with
        | Err err =>
            mkOutcome tt w (fetchRoster x w :: failed x (xml.InternalServerError iq) err)
        | Ok ris =>
            match storage.FetchBlockListItems (owner x w) (store w) with
            | Err err =>
                mkOutcome tt w (reads x w ++ failed x (xml.InternalServerError iq) err)
            | Ok blItms =>
                let adds := toAdd blItms jds in
                let bl := map (itemFor x w) adds in
                let pre := reads x w ++ broadcasts x ris xml.UnavailableType w adds in
                if Nat.ltb 0 (length bl) then
                  let call := StorageCall (storage.CallInsertOrUpdateBlockListItems bl) in
                  match storage.failure (store w) storage.OpInsertOrUpdateBlockListItems with
                  | Some err =>
                      mkOutcome tt w
                        (pre ++ [call] ++ failed x (xml.InternalServerError iq) err)
                  | None =>
                      mkOutcome tt
                        (advance (length (pushTargets x w))
                           (written (storage.insertOrUpdateAll bl
                                       (storage.blockListItems (store w))) w))
                        (pre ++ [call] ++ doneEvents x iq blockElem w)
                  end
                else
                  mkOutcome tt (advance (length (pushTargets x w)) w)
                            (pre ++ doneEvents x iq blockElem w)
            end
        end
    end.

Lemma block_run x iq blockElem w : block x iq blockElem w = block_closed x iq blockElem w.
Proof.
  unfold block, block_closed.
  destruct (Nat.eqb _ 0); [reflexivity|].
  destruct (extractItemJIDs _) as [jds|err]; [|reflexivity].
  unfold bind.
  cbn [stm_Username storage_FetchRosterItems value world events app].
  fold (owner x w).
  destruct (storage.FetchRosterItems (owner x w) (store w)) as [ris|err]; [|reflexivity].
  cbn [stm_Username storage_FetchBlockListItems value world events app].
  fold (owner x w).
  destruct (storage.FetchBlockListItems (owner x w) (store w)) as [blItms|err]; [|reflexivity].
  rewrite block_loop_run. cbn [app].
  destruct (Nat.ltb 0 _) eqn:Hlen.
  - unfold storage_InsertOrUpdateBlockListItems, storage.InsertOrUpdateBlockListItems, storageWrite.
    destruct (storage.failure (store w) storage.OpInsertOrUpdateBlockListItems) as [err|].
    + reflexivity.
    + cbn [stm_SendElement emit app]. rewrite pushIQ_run. cbn.
      rewrite manager_advance. reflexivity.
  - cbn [ret stm_SendElement emit app]. rewrite pushIQ_run. cbn.
    rewrite manager_advance. reflexivity.
Qed.

(** [unblock], with its loops in closed form. *)
Definition unblock_closed (x : XEPBlockingCommand) (iq : xml.IQ) (unblockElem : xml.XElement)
    (w : World) : Outcome unit :=
  match storage.FetchRosterItems (owner x w) (store w) with
  | Err err =>
      mkOutcome tt w (fetchRoster x w :: failed x (xml.InternalServerError iq) err)
  | Ok ris =>
      match storage.FetchBlockListItems (owner x w) (store w) with
      | Err err =>
          mkOutcome tt w (reads x w ++ failed x (xml.InternalServerError iq) err)
      | Ok blItms =>
          let items := xml.Children "item" (xml.Elements unblockElem) in
          if Nat.eqb (length items) 0 then
            let call := StorageCall (storage.CallDeleteBlockList (owner x w)) in
            match storage.failure (store w) storage.OpDeleteBlockList with
            | Some err =>
                mkOutcome tt w
                  (reads x w ++ [call] ++ failed x (xml.InternalServerError iq) err)
            | None =>
                mkOutcome tt
                  (advance (length (pushTargets x w))
                     (written (storage.deleteOwner (owner x w)
                                 (storage.blockListItems (store w))) w))
                  (reads x w ++ [call]
                   ++ broadcasts x ris xml.AvailableType w (map storedJID blItms)
                   ++ doneEvents x iq unblockElem w)
            end
          else
            match extractItemJIDs items with
            | Err err =>
                mkOutcome tt w (reads x w ++ failed x (xml.JidMalformedError iq) err)
            | Ok jds =>
                let rems := toRemove blItms jds in
                let bl := map (itemFor x w) rems in
                let pre := reads x w ++ broadcasts x ris xml.AvailableType w rems in
                let call := StorageCall (storage.CallDeleteBlockListItems bl) in
                match storage.failure (store w) storage.OpDeleteBlockListItems with
                | Some err =>
                    mkOutcome tt w
                      (pre ++ [call] ++ failed x (xml.InternalServerError iq) err)
                | None =>
                    mkOutcome tt
                      (advance (length (pushTargets x w))
                         (written (storage.deleteItems bl
                                     (storage.blockListItems (store w))) w))
                      (pre ++ [call] ++ doneEvents x iq unblockElem w)
                end
            end
      end
  end.

Lemma unblockDone_run x iq unblockElem w :
  unblockDone x iq unblockElem w =
  mkOutcome tt (advance (length (pushTargets x w)) w) (doneEvents x iq unblockElem w).
Proof.
  unfold unblockDone, bind. cbn [stm_SendElement emit]. rewrite pushIQ_run. cbn.
  rewrite manager_advance. reflexivity.
Qed.

Lemma unblock_run x iq unblockElem w :
  unblock x iq unblockElem w = unblock_closed x iq unblockElem w.
Proof.
  unfold unblock, unblock_closed, bind.
  cbn [stm_Username storage_FetchRosterItems value world events app].
  fold (owner x w).
  destruct (storage.FetchRosterItems (owner x w) (store w)) as [ris|err]; [|reflexivity].
  cbn [stm_Username storage_FetchBlockListItems value world events app].
  fold (owner x w).
  destruct (storage.FetchBlockListItems (owner x w) (store w)) as [blItms|err]; [|reflexivity].
  destruct (Nat.eqb _ 0).
  - unfold bind. cbn [stm_Username]. fold (owner x w).
    unfold storage_DeleteBlockList, storage.DeleteBlockList, storageWrite.
    destruct (storage.failure (store w) storage.OpDeleteBlockList) as [err|];
      [reflexivity|].
    rewrite unblockStored_run, unblockDone_run. reflexivity.
  - destruct (extractItemJIDs _) as [jds|err]; [|reflexivity].
    unfold bind. rewrite unblock_loop_run. cbn [app].
    unfold storage_DeleteBlockListItems, storage.DeleteBlockListItems, storageWrite.
    destruct (storage.failure (store w) storage.OpDeleteBlockListItems) as [err|];
      [reflexivity|].
    rewrite unblockDone_run. reflexivity.
Qed.

(** The [blocklist] element [sendBlockList] renders for the given items. *)
Definition blockListElement (blItms : list BlockListItem) : xml.XElement :=
  fold_left
    (fun blockList blItm =>
       xml.AppendElement
         (xml.SetAttribute "jid" (bli_JID blItm) (xml.NewElementName "item")) blockList)
    blItms
    (xml.NewElementNamespace "blocklist" blockingCommandNamespace).

(** The world after the push flag of the stream [s] was set. *)
Definition flagged (s : c2s.Stream) (w : World) : World :=
  mkWorld (store w)
    (c2s.update s
       (fun st => c2s.setContext (c2s.SetBool true xep191RequestedContextKey (c2s.Context st)) st)
       (manager w))
    (uuids w).

(** [sendBlockList] in closed form. *)
Definition sendBlockList_closed (x : XEPBlockingCommand) (iq : xml.IQ) (w : World)
  : Outcome unit :=
  match storage.FetchBlockListItems (owner x w) (store w) with
  | Err err =>
      mkOutcome tt w (fetchBlockList x w :: failed x (xml.InternalServerError iq) err)
  | Ok blItms =>
      mkOutcome tt (flagged (stm x) w)
        [fetchBlockList x w;
         SendElement (stm x)
           (xml.IQStanza (xml.IQ_AppendElement (blockListElement blItms) (xml.ResultIQ iq)))]
  end.

Lemma sendBlockList_run x iq w : sendBlockList x iq w = sendBlockList_closed x iq w.
Proof.
  unfold sendBlockList, sendBlockList_closed, bind.
  cbn [stm_Username storage_FetchBlockListItems]. fold (owner x w).
  destruct (storage.FetchBlockListItems (owner x w) (store w)); reflexivity.
Qed.

(** ** Reading a trace *)

(** The [item] children of a [block] or [unblock] element. *)
Definition requestItems (elem : xml.XElement) : list xml.XElement :=
  xml.Children "item" (xml.Elements elem).

(** The owner's block set: what the storage holds under the name of the
    stream the handler serves. *)
Definition blockSet (x : XEPBlockingCommand) (w : World) : list BlockListItem :=
  storage.itemsOf (owner x w) (storage.blockListItems (store w)).

(** The stanzas handed to the stream [s], in order. *)
Definition sentTo (s : c2s.Stream) (evs : list Event) : list xml.Stanza :=
  flat_map (fun ev =>
              match ev with
              | SendElement s' e => if Nat.eqb s' s then [e] else []
              | _ => []
              end) evs.

(** The presences given to the router, in order. *)
Definition routed (evs : list Event) : list xml.Presence :=
  flat_map (fun ev => match ev with Route p => [p] | _ => [] end) evs.

(** The writes asked of the storage, in order. *)
Definition writes (evs : list Event) : list storage.Call :=
  flat_map (fun ev =>
              match ev with
              | StorageCall c => if storage.isWrite c then [c] else []
              | _ => []
              end) evs.

(** The user names for which a block-list reload was signalled. *)
Definition reloads (evs : list Event) : list string :=
  flat_map (fun ev => match ev with ReloadBlockList u => [u] | _ => [] end) evs.

(** The errors logged. *)
Definition logged (evs : list Event) : list error :=
  flat_map (fun ev => match ev with LogError e => [e] | _ => [] end) evs.

(** Every stanza sent to any stream, with its destination. *)
Definition sent (evs : list Event) : list (c2s.Stream * xml.Stanza) :=
  flat_map (fun ev => match ev with SendElement s e => [(s, e)] | _ => [] end) evs.

(** The request was answered with the result IQ. *)
Definition succeeded (x : XEPBlockingCommand) (iq : xml.IQ) (o : Outcome unit) : Prop :=
  In (xml.IQStanza (xml.ResultIQ iq)) (sentTo (stm x) (events o)).

(** The roster grants the contact [jid] visibility of the owner's presence:
    some roster item for it has subscription [from] or [both]. *)
Definition visible (jid : JID) (ris : list RosterItem) : Prop :=
  exists ri, In ri ris /\ ri_JID ri = JID_String jid
             /\ (ri_Subscription ri = subscriptionFrom
                 \/ ri_Subscription ri = subscriptionBoth).

(** The roster relation of [jid] is [none] or [to] wherever it has one. *)
Definition hidden (jid : JID) (ris : list RosterItem) : Prop :=
  forall ri, In ri ris -> ri_JID ri = JID_String jid ->
             ri_Subscription ri = subscriptionNone \/ ri_Subscription ri = subscriptionTo.

(** The payload of the presence a stream last sent, if any. *)
Definition lastPayload (w : World) (s : c2s.Stream) : list xml.XElement :=
  match c2s.Presence (c2s.object (manager w) s) with
  | Some pr => xml.Presence_Elements pr
  | None => []
  end.

Definition jidOf (w : World) (s : c2s.Stream) : JID :=
  c2s.StreamJID (c2s.object (manager w) s).

Lemma sentTo_app s evs1 evs2 : sentTo s (evs1 ++ evs2) = sentTo s evs1 ++ sentTo s evs2.
Proof. apply flat_map_app. Qed.

Lemma routed_app evs1 evs2 : routed (evs1 ++ evs2) = routed evs1 ++ routed evs2.
Proof. apply flat_map_app. Qed.

Lemma writes_app evs1 evs2 : writes (evs1 ++ evs2) = writes evs1 ++ writes evs2.
Proof. apply flat_map_app. Qed.

Lemma reloads_app evs1 evs2 : reloads (evs1 ++ evs2) = reloads evs1 ++ reloads evs2.
Proof. apply flat_map_app. Qed.

Lemma logged_app evs1 evs2 : logged (evs1 ++ evs2) = logged evs1 ++ logged evs2.
Proof. apply flat_map_app. Qed.

Lemma sent_app evs1 evs2 : sent (evs1 ++ evs2) = sent evs1 ++ sent evs2.
Proof. apply flat_map_app. Qed.


Lemma In_sentTo s e evs : In e (sentTo s evs) <-> In (SendElement s e) evs.
Proof.
  unfold sentTo. rewrite in_flat_map. split.
  - intros [ev [Hin He]]. destruct ev; cbn in He; try contradiction.
    destruct (Nat.eqb stm0 s) eqn:Hs; cbn in He; [|contradiction].
    apply Nat.eqb_eq in Hs. subst. destruct He as [->|[]]. exact Hin.
  - intros Hin. exists (SendElement s e). split; [exact Hin|].
    rewrite Nat.eqb_refl. left. reflexivity.
Qed.

(** *** What a broadcast leaves in the trace *)

Lemma routedPresence_unavailable x w s :
  routedPresence x xml.UnavailableType w s =
  xml.mkPresence (jidOf w s) (ownerBareJID x w) xml.UnavailableType [].
Proof.
  unfold routedPresence, jidOf.
  destruct (c2s.Presence (c2s.object (manager w) s)); reflexivity.
Qed.

Lemma routedPresence_available x w s :
  routedPresence x xml.AvailableType w s =
  xml.mkPresence (jidOf w s) (ownerBareJID x w) xml.AvailableType (lastPayload w s).
Proof.
  unfold routedPresence, lastPayload, jidOf.
  destruct (c2s.Presence (c2s.object (manager w) s)); reflexivity.
Qed.

Lemma isSubscribedFrom_visible jid ris : isSubscribedFrom jid ris = true <-> visible jid ris.
Proof.
  unfold isSubscribedFrom, visible. rewrite existsb_exists.
  split; intros [ri [Hin H]]; exists ri; (split; [exact Hin|]).
  - apply andb_true_iff in H. destruct H as [Hj Hs].
    apply String.eqb_eq in Hj. apply orb_true_iff in Hs.
    rewrite !String.eqb_eq in Hs. auto.
  - destruct H as [Hj Hs]. apply andb_true_iff.
    rewrite String.eqb_eq, orb_true_iff, !String.eqb_eq. auto.
Qed.

Lemma isSubscribedFrom_hidden jid ris : hidden jid ris -> isSubscribedFrom jid ris = false.
Proof.
  intros Hh. destruct (isSubscribedFrom jid ris) eqn:Hs; [|reflexivity].
  apply isSubscribedFrom_visible in Hs. destruct Hs as [ri [Hin [Hj Hs]]].
  destruct (Hh ri Hin Hj) as [H|H]; rewrite H in Hs; destruct Hs; discriminate.
Qed.

Lemma broadcastEvents_hidden x ris presenceType w jid :
  hidden jid ris -> broadcastEvents x ris presenceType w jid = [LookupStreams jid].
Proof.
  intros Hh. unfold broadcastEvents. rewrite (isSubscribedFrom_hidden _ _ Hh). reflexivity.
Qed.

Lemma routed_broadcastEvents x ris presenceType w jid :
  routed (broadcastEvents x ris presenceType w jid) =
  if isSubscribedFrom jid ris
  then map (routedPresence x presenceType w) (sessionsOf jid w)
  else [].
Proof.
  unfold broadcastEvents. cbn. destruct (isSubscribedFrom jid ris); [|reflexivity].
  induction (sessionsOf jid w) as [|s l IH]; cbn; [reflexivity|].
  f_equal. exact IH.
Qed.

(** A broadcast sends nothing to a stream, writes nothing, logs nothing and
    signals no reload: it only looks streams up and routes presences. *)
Lemma broadcastEvents_only_routes x ris presenceType w jid :
  let evs := broadcastEvents x ris presenceType w jid in
  sent evs = [] /\ writes evs = [] /\ reloads evs = [] /\ logged evs = [].
Proof.
  unfold broadcastEvents. cbn.
  destruct (isSubscribedFrom jid ris); [|repeat split; reflexivity].
  induction (sessionsOf jid w) as [|s l IH]; cbn; [repeat split; reflexivity|].
  exact IH.
Qed.

Lemma broadcasts_only_route x ris presenceType w (l : list JID) :
  let evs := broadcasts x ris presenceType w l in
  sent evs = [] /\ writes evs = [] /\ reloads evs = [] /\ logged evs = [].
Proof.
  unfold broadcasts. induction l as [|a l IH]; [repeat split; reflexivity|].
  cbv zeta in *. destruct IH as [H1 [H2 [H3 H4]]].
  destruct (broadcastEvents_only_routes x ris presenceType w a) as [G1 [G2 [G3 G4]]].
  cbn [flat_map]. rewrite sent_app, writes_app, reloads_app, logged_app.
  rewrite H1, H2, H3, H4, G1, G2, G3, G4. repeat split; reflexivity.
Qed.

Lemma sentTo_of_sent s evs : sent evs = [] -> sentTo s evs = [].
Proof.
  induction evs as [|ev evs IH]; [reflexivity|].
  destruct ev; cbn; auto. discriminate.
Qed.

Lemma sentTo_broadcasts s x ris presenceType w l :
  sentTo s (broadcasts x ris presenceType w l) = [].
Proof. apply sentTo_of_sent. apply broadcasts_only_route. Qed.

Lemma routed_hidden_broadcasts x ris presenceType w (l : list JID) :
  (forall j, In j l -> hidden j ris) ->
  routed (broadcasts x ris presenceType w l) = [].
Proof.
  unfold broadcasts. induction l as [|j l IH]; intros Hh; [reflexivity|].
  cbn [flat_map]. rewrite routed_app, routed_broadcastEvents.
  rewrite (isSubscribedFrom_hidden j ris) by (apply Hh; left; reflexivity).
  apply IH. intros j' Hj'. apply Hh. right. exact Hj'.
Qed.


(** *** What the pushes leave in the trace *)

Lemma pushEvents_only_send elem l n :
  let evs := pushEvents elem l n in
  routed evs = [] /\ writes evs = [] /\ reloads evs = [] /\ logged evs = [].
Proof.
  revert n. induction l as [|s l IH]; intros n; cbn; [repeat split; reflexivity|].
  apply IH.
Qed.

Lemma sentTo_SendElement s s' e evs :
  sentTo s (SendElement s' e :: evs) = (if Nat.eqb s' s then [e] else []) ++ sentTo s evs.
Proof. reflexivity. Qed.

Lemma sentTo_pushEvents_notin elem s l n :
  ~ In s l -> sentTo s (pushEvents elem l n) = [].
Proof.
  revert n. induction l as [|s' l IH]; intros n Hn; [reflexivity|].
  cbn [pushEvents]. rewrite sentTo_SendElement. destruct (Nat.eqb s' s) eqn:Hs.
  - apply Nat.eqb_eq in Hs. subst. exfalso. apply Hn. left. reflexivity.
  - cbn [app]. apply IH. intros Hin. apply Hn. right. exact Hin.
Qed.

Lemma sentTo_pushEvents_in elem s l n :
  NoDup l -> In s l ->
  exists id, sentTo s (pushEvents elem l n) = [pushStanza id elem].
Proof.
  revert n. induction l as [|s' l IH]; intros n Hnd Hin; [destruct Hin|].
  inversion Hnd as [|? ? Hnotin Hnd']; subst.
  cbn [pushEvents]. rewrite sentTo_SendElement. destruct (Nat.eqb s' s) eqn:Hs.
  - apply Nat.eqb_eq in Hs. subst s'. exists (uuid_New n).
    rewrite sentTo_pushEvents_notin by exact Hnotin. reflexivity.
  - destruct Hin as [Heq|Hin]; [subst; rewrite Nat.eqb_refl in Hs; discriminate|].
    cbn [app]. apply IH; assumption.
Qed.

Lemma NoDup_pushTargets x w :
  NoDup (c2s.registered (manager w)) -> NoDup (pushTargets x w).
Proof.
  intros Hnd. unfold pushTargets, sessionsOf, c2s.StreamsMatchingJID.
  apply NoDup_filter. apply NoDup_filter. exact Hnd.
Qed.

Lemma In_pushTargets x w s :
  In s (pushTargets x w) <-> In s (sessionsOf (ownerBareJID x w) w) /\ pushEnabled w s = true.
Proof. unfold pushTargets. apply filter_In. Qed.

(** What the end of a successful request sends to a stream of the owner. *)
Lemma sentTo_doneEvents x iq elem w s :
  sentTo s (doneEvents x iq elem w) =
  (if Nat.eqb (stm x) s then [xml.IQStanza (xml.ResultIQ iq)] else [])
  ++ sentTo s (pushEvents elem (pushTargets x w) (uuids w)).
Proof.
  unfold doneEvents. rewrite sentTo_SendElement. f_equal.
  change (LookupStreams (ownerBareJID x w)
          :: pushEvents elem (pushTargets x w) (uuids w) ++ [ReloadBlockList (owner x w)])
    with ([LookupStreams (ownerBareJID x w)]
          ++ pushEvents elem (pushTargets x w) (uuids w) ++ [ReloadBlockList (owner x w)]).
  rewrite !sentTo_app. cbn. apply app_nil_r.
Qed.

Lemma doneEvents_rest x iq elem w :
  let evs := doneEvents x iq elem w in
  routed evs = [] /\ writes evs = [] /\ reloads evs = [owner x w] /\ logged evs = [].
Proof.
  unfold doneEvents.
  destruct (pushEvents_only_send elem (pushTargets x w) (uuids w)) as [H1 [H2 [H3 H4]]].
  cbv zeta.
  change (SendElement (stm x) (xml.IQStanza (xml.ResultIQ iq))
          :: LookupStreams (ownerBareJID x w)
          :: pushEvents elem (pushTargets x w) (uuids w) ++ [ReloadBlockList (owner x w)])
    with ([SendElement (stm x) (xml.IQStanza (xml.ResultIQ iq));
           LookupStreams (ownerBareJID x w)]
          ++ pushEvents elem (pushTargets x w) (uuids w) ++ [ReloadBlockList (owner x w)]).
  rewrite !routed_app, !writes_app, !reloads_app, !logged_app, H1, H2, H3, H4.
  repeat split; reflexivity.
Qed.

(** *** Failed and successful runs *)

Lemma sent_reads x w : sent (reads x w) = [].
Proof. reflexivity. Qed.

Lemma sent_broadcasts x ris presenceType w l : sent (broadcasts x ris presenceType w l) = [].
Proof. apply broadcasts_only_route. Qed.

Lemma sentTo_skip s pre evs : sent pre = [] -> sentTo s (pre ++ evs) = sentTo s evs.
Proof.
  intros Hpre. rewrite sentTo_app, (sentTo_of_sent s pre Hpre). reflexivity.
Qed.

Lemma sentTo_failed x s reply err :
  sentTo s (failed x reply err) = if Nat.eqb (stm x) s then [reply] else [].
Proof. unfold failed. cbn. rewrite app_nil_r. reflexivity. Qed.

(** A run that ends in an error reply did not succeed. *)
Lemma failed_not_succeeded x iq w' pre cond err :
  sent pre = [] ->
  ~ succeeded x iq (mkOutcome tt w' (pre ++ failed x (xml.IQError iq cond) err)).
Proof.
  intros Hpre. unfold succeeded. cbn [events].
  rewrite sentTo_skip by exact Hpre. rewrite sentTo_failed, Nat.eqb_refl.
  intros [H|[]]. discriminate H.
Qed.

(** A successful [block] ends with the result reply, the pushes and the
    reload signal, and sent nothing to any stream before. *)
Lemma block_succeeded_inv x iq blockElem w :
  succeeded x iq (block x iq blockElem w) ->
  exists mid,
    events (block x iq blockElem w) = mid ++ doneEvents x iq blockElem w
    /\ sent mid = [].
Proof.
  rewrite block_run. unfold block_closed.
  destruct (Nat.eqb _ 0).
  { intros H. exfalso.
    exact (failed_not_succeeded x iq w [] xml.ErrBadRequest EmptyString eq_refl
             ltac:(unfold succeeded in *; cbn in *; tauto)). }
  destruct (extractItemJIDs _) as [jds|err].
  2: { intros H. exfalso. exact (failed_not_succeeded x iq w [] _ err eq_refl H). }
  destruct (storage.FetchRosterItems _ _) as [ris|err].
  2: { intros H. exfalso.
       exact (failed_not_succeeded x iq w [fetchRoster x w] _ err eq_refl H). }
  destruct (storage.FetchBlockListItems _ _) as [blItms|err].
  2: { intros H. exfalso. exact (failed_not_succeeded x iq w (reads x w) _ err eq_refl H). }
  cbv zeta.
  assert (Hpre : sent (reads x w ++ broadcasts x ris xml.UnavailableType w (toAdd blItms jds)) = []).
  { rewrite sent_app, sent_reads, sent_broadcasts. reflexivity. }
  destruct (Nat.ltb 0 _).
  - destruct (storage.failure _ _) as [err|].
    + intros H. exfalso. rewrite app_assoc in H.
      refine (failed_not_succeeded x iq w _ _ err _ H).
      rewrite sent_app, Hpre. reflexivity.
    + intros _. cbn [events]. rewrite app_assoc. eexists. split; [reflexivity|].
      rewrite sent_app, Hpre. reflexivity.
  - intros _. cbn [events]. eexists. split; [reflexivity|]. exact Hpre.
Qed.

Lemma unblock_succeeded_inv x iq unblockElem w :
  succeeded x iq (unblock x iq unblockElem w) ->
  exists mid,
    events (unblock x iq unblockElem w) = mid ++ doneEvents x iq unblockElem w
    /\ sent mid = [].
Proof.
  rewrite unblock_run. unfold unblock_closed.
  destruct (storage.FetchRosterItems _ _) as [ris|err].
  2: { intros H. exfalso.
       exact (failed_not_succeeded x iq w [fetchRoster x w] _ err eq_refl H). }
  destruct (storage.FetchBlockListItems _ _) as [blItms|err].
  2: { intros H. exfalso. exact (failed_not_succeeded x iq w (reads x w) _ err eq_refl H). }
  cbv zeta. destruct (Nat.eqb _ 0).
  - destruct (storage.failure _ _) as [err|].
    + intros H. exfalso. rewrite app_assoc in H.
      refine (failed_not_succeeded x iq w _ _ err _ H). reflexivity.
    + intros _. cbn [events]. rewrite !app_assoc. eexists. split; [reflexivity|].
      rewrite !sent_app, sent_reads, sent_broadcasts. reflexivity.
  - destruct (extractItemJIDs _) as [jds|err].
    2: { intros H. exfalso. exact (failed_not_succeeded x iq w (reads x w) _ err eq_refl H). }
    assert (Hpre : sent (reads x w
                         ++ broadcasts x ris xml.AvailableType w (toRemove blItms jds)) = []).
    { rewrite sent_app, sent_reads, sent_broadcasts. reflexivity. }
    destruct (storage.failure _ _) as [err|].
    + intros H. exfalso. rewrite app_assoc in H.
      refine (failed_not_succeeded x iq w _ _ err _ H).
      rewrite sent_app, Hpre. reflexivity.
    + intros _. cbn [events]. rewrite app_assoc. eexists. split; [reflexivity|].
      rewrite sent_app, Hpre. reflexivity.
Qed.

(** What a successful request sends to a session of the owner: the result
    reply if it is the one that asked, then the push if its flag is set. *)
Lemma sentTo_on_success x iq elem w s (evs mid : list Event) :
  NoDup (c2s.registered (manager w)) ->
  In s (sessionsOf (ownerBareJID x w) w) ->
  evs = mid ++ doneEvents x iq elem w -> sent mid = [] ->
  exists id,
    sentTo s evs =
    (if Nat.eqb (stm x) s then [xml.IQStanza (xml.ResultIQ iq)] else [])
    ++ (if pushEnabled w s then [pushStanza id elem] else []).
Proof.
  intros Hnd Hs -> Hmid.
  rewrite sentTo_skip by exact Hmid. rewrite sentTo_doneEvents.
  destruct (pushEnabled w s) eqn:Hflag.
  - destruct (sentTo_pushEvents_in elem s (pushTargets x w) (uuids w)) as [id Hid].
    + apply NoDup_pushTargets. exact Hnd.
    + apply In_pushTargets. split; assumption.
    + exists id. rewrite Hid. reflexivity.
  - exists EmptyString. rewrite sentTo_pushEvents_notin; [reflexivity|].
    intros Hin. apply In_pushTargets in Hin. destruct Hin as [_ Hin]. congruence.
Qed.

(** ** The storage under [block] *)

Lemma sameItem_true (a b : BlockListItem) : sameItem a b = true <-> a = b.
Proof.
  unfold sameItem. rewrite andb_true_iff, !String.eqb_eq.
  destruct a as [ua ja], b as [ub jb]; cbn. split.
  - intros [-> ->]. reflexivity.
  - intros H. inversion H. auto.
Qed.

Lemma existsb_sameItem (it : BlockListItem) (tbl : list BlockListItem) :
  existsb (sameItem it) tbl = true <-> In it tbl.
Proof.
  rewrite existsb_exists. split.
  - intros [it' [Hin Hsame]]. apply sameItem_true in Hsame. subst. exact Hin.
  - intros Hin. exists it. split; [exact Hin|]. apply sameItem_true. reflexivity.
Qed.

Lemma insertOrUpdate_keeps tbl it it' :
  In it tbl -> In it (storage.insertOrUpdate tbl it').
Proof.
  intros Hin. unfold storage.insertOrUpdate.
  destruct (existsb (sameItem it') tbl); [exact Hin|].
  apply in_or_app. left. exact Hin.
Qed.

Lemma insertOrUpdate_stores tbl it : In it (storage.insertOrUpdate tbl it).
Proof.
  unfold storage.insertOrUpdate.
  destruct (existsb (sameItem it) tbl) eqn:Hex.
  - apply existsb_sameItem. exact Hex.
  - apply in_or_app. right. left. reflexivity.
Qed.

Lemma insertOrUpdateAll_keeps items tbl it :
  In it tbl -> In it (storage.insertOrUpdateAll items tbl).
Proof.
  unfold storage.insertOrUpdateAll. revert tbl.
  induction items as [|it' items IH]; intros tbl Hin; [exact Hin|].
  cbn. apply IH. apply insertOrUpdate_keeps. exact Hin.
Qed.

Lemma insertOrUpdateAll_stores items tbl it :
  In it items -> In it (storage.insertOrUpdateAll items tbl).
Proof.
  unfold storage.insertOrUpdateAll. revert tbl.
  induction items as [|it' items IH]; intros tbl Hin; [destruct Hin|].
  cbn. destruct Hin as [->|Hin].
  - apply (insertOrUpdateAll_keeps items). apply insertOrUpdate_stores.
  - apply IH. exact Hin.
Qed.

Lemma insertOrUpdate_NoDup tbl it : NoDup tbl -> NoDup (storage.insertOrUpdate tbl it).
Proof.
  intros Hnd. unfold storage.insertOrUpdate.
  destruct (existsb (sameItem it) tbl) eqn:Hex; [exact Hnd|].
  apply NoDup_app; [exact Hnd|constructor; [intros []|constructor]|].
  intros a Ha [<-|[]]. apply existsb_sameItem in Ha. congruence.
Qed.

Lemma insertOrUpdateAll_NoDup items tbl :
  NoDup tbl -> NoDup (storage.insertOrUpdateAll items tbl).
Proof.
  unfold storage.insertOrUpdateAll. revert tbl.
  induction items as [|it items IH]; intros tbl Hnd; [exact Hnd|].
  cbn. apply IH. apply insertOrUpdate_NoDup. exact Hnd.
Qed.

Lemma In_itemsOf u it tbl :
  In it (storage.itemsOf u tbl) <-> In it tbl /\ bli_Username it = u.
Proof. unfold storage.itemsOf. rewrite filter_In, String.eqb_eq. reflexivity. Qed.

Lemma isJIDInBlockList_true jid blItems :
  isJIDInBlockList jid blItems = true <->
  exists blItem, In blItem blItems /\ bli_JID blItem = JID_String jid.
Proof.
  unfold isJIDInBlockList. rewrite existsb_exists.
  split; intros [b [Hin H]]; exists b; (split; [exact Hin|]); apply String.eqb_eq; exact H.
Qed.

(** The storage [block] leaves, as a function of the user name of the
    stream, the request and the storage it found. *)
Definition block_store (u : string) (blockElem : xml.XElement) (st : storage.Storage)
  : storage.Storage :=
  match extractItemJIDs (requestItems blockElem) with
  | Err _ => st
  | Ok jds =>
      match storage.FetchRosterItems u st, storage.FetchBlockListItems u st with
      | Ok _, Ok blItms =>
          let bl := map (fun j => mkBlockListItem u (JID_String j)) (toAdd blItms jds) in
          match storage.InsertOrUpdateBlockListItems bl st with
          | Ok st' => st'
          | Err _ => st
          end
      | _, _ => st
      end
  end.

Lemma insertOrUpdateAll_nil tbl : storage.insertOrUpdateAll [] tbl = tbl.
Proof. reflexivity. Qed.

Lemma setBlockListItems_same st :
  storage.setBlockListItems (storage.blockListItems st) st = st.
Proof. destruct st; reflexivity. Qed.

Lemma extractItemJIDs_nil : extractItemJIDs [] = Ok [].
Proof. reflexivity. Qed.

Lemma store_of_block x iq blockElem w :
  store (world (block x iq blockElem w)) = block_store (owner x w) blockElem (store w).
Proof.
  rewrite block_run. unfold block_closed, block_store. fold (requestItems blockElem).
  destruct (requestItems blockElem) as [|item items] eqn:Hitems.
  - cbn [length Nat.eqb world]. rewrite extractItemJIDs_nil.
    destruct (storage.FetchRosterItems _ _); [|reflexivity].
    destruct (storage.FetchBlockListItems _ _); [|reflexivity].
    cbn. unfold storage.InsertOrUpdateBlockListItems.
    destruct (storage.failure _ _); [reflexivity|].
    rewrite insertOrUpdateAll_nil, setBlockListItems_same. reflexivity.
  - cbn [length Nat.eqb].
    destruct (extractItemJIDs _) as [jds|err]; [|reflexivity].
    destruct (storage.FetchRosterItems _ _) as [ris|err]; [|reflexivity].
    destruct (storage.FetchBlockListItems _ _) as [blItms|err]; [|reflexivity].
    cbv zeta. unfold storage.InsertOrUpdateBlockListItems.
    fold (itemFor x w).
    destruct (map (itemFor x w) (toAdd blItms jds)) as [|b bl] eqn:Hbl.
    + cbn [length Nat.ltb Nat.leb world]. rewrite store_advance.
      destruct (storage.failure _ _); [reflexivity|].
      rewrite insertOrUpdateAll_nil, setBlockListItems_same. reflexivity.
    + cbn [length Nat.ltb Nat.leb].
      destruct (storage.failure _ _); cbn [world]; [reflexivity|].
      rewrite store_advance. reflexivity.
Qed.

Lemma manager_of_block x iq blockElem w :
  manager (world (block x iq blockElem w)) = manager w.
Proof.
  rewrite block_run. unfold block_closed.
  repeat match goal with
         | |- context [if ?b then _ else _] => destruct b
         | |- context [match ?r with Ok _ => _ | Err _ => _ end] => destruct r
         | |- context [match ?r with Some _ => _ | None => _ end] => destruct r
         end; cbn [world]; rewrite ?manager_advance; reflexivity.
Qed.

(** After the items for the addresses to add were stored, every requested
    address is found in the owner's block list. *)
Lemma all_blocked_after u tbl (jds : list JID) :
  let blItms := storage.itemsOf u tbl in
  let bl := map (fun j => mkBlockListItem u (JID_String j)) (toAdd blItms jds) in
  toAdd (storage.itemsOf u (storage.insertOrUpdateAll bl tbl)) jds = [].
Proof.
  cbv zeta. set (blItms := storage.itemsOf u tbl).
  set (bl := map _ (toAdd blItms jds)).
  unfold toAdd at 1.
  assert (H : forall j, In j jds ->
            isJIDInBlockList j (storage.itemsOf u (storage.insertOrUpdateAll bl tbl)) = true).
  { intros j Hj. apply isJIDInBlockList_true.
    destruct (isJIDInBlockList j blItms) eqn:Hold.
    - apply isJIDInBlockList_true in Hold. destruct Hold as [b [Hb Hjid]].
      exists b. split; [|exact Hjid].
      apply In_itemsOf in Hb. apply In_itemsOf. split; [|tauto].
      apply insertOrUpdateAll_keeps. tauto.
    - exists (mkBlockListItem u (JID_String j)). split; [|reflexivity].
      apply In_itemsOf. split; [|reflexivity].
      apply insertOrUpdateAll_stores. unfold bl.
      apply (in_map (fun j => mkBlockListItem u (JID_String j))).
      unfold toAdd. apply filter_In. split; [exact Hj|]. rewrite Hold. reflexivity. }
  induction jds as [|j jds IH]; [reflexivity|].
  cbn [filter]. rewrite (H j) by (left; reflexivity). cbn [negb].
  clear IH. revert H. generalize (storage.itemsOf u (storage.insertOrUpdateAll bl tbl)).
  intros l H.
  assert (G : forall l', (forall j', In j' l' -> isJIDInBlockList j' l = true) ->
                         filter (fun j0 => negb (isJIDInBlockList j0 l)) l' = []).
  { induction l' as [|a l' IH']; intros Hl'; [reflexivity|].
    cbn. rewrite Hl' by (left; reflexivity). cbn. apply IH'.
    intros j' Hj'. apply Hl'. right. exact Hj'. }
  apply G. intros j' Hj'. apply H. right. exact Hj'.
Qed.

Lemma block_store_idempotent u blockElem st :
  block_store u blockElem (block_store u blockElem st) = block_store u blockElem st.
Proof.
  unfold block_store at 2.
  destruct (extractItemJIDs (requestItems blockElem)) as [jds|err] eqn:Hjds.
  2: { unfold block_store. rewrite Hjds. reflexivity. }
  destruct (storage.FetchRosterItems u st) as [ris|err] eqn:Hris.
  2: { unfold block_store. rewrite Hjds, Hris. reflexivity. }
  destruct (storage.FetchBlockListItems u st) as [blItms|err] eqn:Hbl.
  2: { unfold block_store. rewrite Hjds, Hris, Hbl. reflexivity. }
  cbv zeta.
  destruct (storage.InsertOrUpdateBlockListItems _ st) as [st'|err] eqn:Hins.
  2: { unfold block_store. rewrite Hjds, Hris, Hbl. cbv zeta. rewrite Hins. reflexivity. }
  unfold storage.InsertOrUpdateBlockListItems in Hins.
  destruct (storage.failure st storage.OpInsertOrUpdateBlockListItems) eqn:Hf;
    [discriminate|].
  inversion Hins as [Hst']. clear Hins.
  unfold storage.FetchBlockListItems in Hbl.
  destruct (storage.failure st storage.OpFetchBlockListItems) eqn:Hfb; [discriminate|].
  inversion Hbl as [HblItms]. clear Hbl.
  unfold storage.FetchRosterItems in Hris.
  destruct (storage.failure st storage.OpFetchRosterItems) eqn:Hfr; [discriminate|].
  unfold block_store. rewrite Hjds.
  unfold storage.FetchRosterItems, storage.FetchBlockListItems,
    storage.InsertOrUpdateBlockListItems.
  cbn [storage.failure storage.setBlockListItems storage.blockListItems storage.rosterItems].
  rewrite Hfr, Hfb, Hf. cbv zeta.
  rewrite all_blocked_after. cbn [map]. rewrite insertOrUpdateAll_nil.
  reflexivity.
Qed.

(** ** The properties of the handler *)

(** *** Presence on block *)




(** *** Pushes to the other sessions of the owner *)

(** C2: after a successful block or unblock, a session of the owner other
    than the one that issued the request is sent exactly one stanza if its
    push flag is set, the push IQ (type [set]) whose only child is the
    request's block or unblock element as it was received; a session whose
    flag is not set is sent no push, and nothing at all if it is not the
    one that issued the request.  The registry lists each stream once. *)
Theorem push_reaches_other_sessions x iq elem w s o :
  NoDup (c2s.registered (manager w)) ->
  In s (sessionsOf (ownerBareJID x w) w) ->
  o = block x iq elem w \/ o = unblock x iq elem w ->
  succeeded x iq o ->
  (pushEnabled w s = true -> s <> stm x ->
   exists id, sentTo s (events o) = [pushStanza id elem])
  /\ (pushEnabled w s = false -> s <> stm x -> sentTo s (events o) = [])
  /\ (pushEnabled w s = false -> forall id, ~ In (pushStanza id elem) (sentTo s (events o))).
Proof.
  intros Hnd Hs Ho Hok.
  assert (Hinv : exists mid, events o = mid ++ doneEvents x iq elem w /\ sent mid = []).
  { destruct Ho as [-> | ->];
      [apply block_succeeded_inv|apply unblock_succeeded_inv]; exact Hok. }
  destruct Hinv as [mid [Hev Hmid]].
  destruct (sentTo_on_success x iq elem w s _ mid Hnd Hs Hev Hmid) as [id Hsent].
  rewrite Hsent. split; [|split].
  - intros Hflag Hneq. rewrite Hflag.
    replace (Nat.eqb (stm x) s) with false by (symmetry; apply Nat.eqb_neq; congruence).
    exists id. reflexivity.
  - intros Hflag Hneq. rewrite Hflag.
    replace (Nat.eqb (stm x) s) with false by (symmetry; apply Nat.eqb_neq; congruence).
    reflexivity.
  - intros Hflag id' Hin. rewrite Hflag, app_nil_r in Hin.
    destruct (Nat.eqb (stm x) s); [|exact Hin].
    destruct Hin as [Heq|[]]. discriminate Heq.
Qed.

(** [pushIQ] does not leave out the stream that issued the request: when
    its own push flag is set, it is sent the result reply and then the push. *)
Lemma push_reaches_requester x iq elem w :
  NoDup (c2s.registered (manager w)) ->
  In (stm x) (sessionsOf (ownerBareJID x w) w) ->
  pushEnabled w (stm x) = true ->
  succeeded x iq (block x iq elem w) ->
  exists id,
    sentTo (stm x) (events (block x iq elem w)) =
    [xml.IQStanza (xml.ResultIQ iq); pushStanza id elem].
Proof.
  intros Hnd Hs Hflag Hok.
  destruct (block_succeeded_inv x iq elem w Hok) as [mid [Hev Hmid]].
  destruct (sentTo_on_success x iq elem w (stm x) _ mid Hnd Hs Hev Hmid) as [id Hsent].
  exists id. rewrite Hsent, Hflag, Nat.eqb_refl. reflexivity.
Qed.

(** *** Clearing the whole block list *)

Lemma itemsOf_deleteOwner u tbl : storage.itemsOf u (storage.deleteOwner u tbl) = [].
Proof.
  unfold storage.itemsOf, storage.deleteOwner.
  induction tbl as [|it tbl IH]; [reflexivity|].
  cbn [filter]. destruct (String.eqb (bli_Username it) u) eqn:Hu; cbn [negb filter].
  - exact IH.
  - rewrite Hu. exact IH.
Qed.


Lemma blockSet_after_write x k tbl w :
  blockSet x (advance k (written tbl w)) = storage.itemsOf (owner x w) tbl.
Proof.
  unfold blockSet, owner. rewrite manager_advance, store_advance. reflexivity.
Qed.


(** The JID of a stored item parses, with [skipStringPrep] as the clear-all
    loop sets it. *)
Definition storedParses (blItm : BlockListItem) : Prop :=
  snd (NewJIDString (bli_JID blItm) true) = None.




(** *** Blocking what is already blocked *)

(** C4: blocking an address that is already in the owner's block set is a
    no-op for that address: the step of the loop of [block] for it changes
    nothing, emits nothing and adds nothing to the batch to store; a request
    that names only such addresses is answered with the result IQ, routes no
    presence, asks no write of the storage, logs no error and leaves the
    storage as it was; and running the same block request a second time
    leaves the storage as the first run left it. *)
Theorem block_already_blocked x iq blockElem w :
  (forall ris blItms bl j w',
      isJIDInBlockList j blItms = true ->
      blockOne x ris blItms bl j w' = mkOutcome bl w' [])
  /\ (forall jds ris blItms,
        requestItems blockElem <> [] ->
        extractItemJIDs (requestItems blockElem) = Ok jds ->
        storage.FetchRosterItems (owner x w) (store w) = Ok ris ->
        storage.FetchBlockListItems (owner x w) (store w) = Ok blItms ->
        (forall j, In j jds -> isJIDInBlockList j blItms = true) ->
        succeeded x iq (block x iq blockElem w)
        /\ routed (events (block x iq blockElem w)) = []
        /\ writes (events (block x iq blockElem w)) = []
        /\ logged (events (block x iq blockElem w)) = []
        /\ store (world (block x iq blockElem w)) = store w)
  /\ store (world (block x iq blockElem (world (block x iq blockElem w))))
     = store (world (block x iq blockElem w)).
Proof.
  split; [|split].
  - intros ris blItms bl j w' Hj. rewrite blockOne_run, Hj. reflexivity.
  - intros jds ris blItms Hitems Hjds Hris Hbl Hall.
    assert (Hadd : toAdd blItms jds = []).
    { unfold toAdd. clear Hjds. induction jds as [|j jds IH]; [reflexivity|].
      cbn [filter]. rewrite (Hall j) by (left; reflexivity). cbn [negb].
      apply IH. intros j' Hj'. apply Hall. right. exact Hj'. }
    unfold succeeded. rewrite block_run. unfold block_closed.
    fold (requestItems blockElem).
    destruct (requestItems blockElem) as [|item items]; [congruence|].
    cbn [length Nat.eqb]. rewrite Hjds, Hris, Hbl. cbv zeta. rewrite Hadd.
    cbn [map length Nat.ltb Nat.leb world events broadcasts flat_map].
    rewrite app_nil_r.
    destruct (doneEvents_rest x iq blockElem w) as [H1 [H2 [H3 H4]]]. cbv zeta in *.
    rewrite routed_app, writes_app, logged_app, H1, H2, H4, store_advance.
    rewrite sentTo_skip by reflexivity. rewrite sentTo_doneEvents, Nat.eqb_refl.
    repeat split; try reflexivity. left. reflexivity.
  - rewrite !store_of_block.
    unfold owner at 1. rewrite manager_of_block. fold (owner x w).
    apply block_store_idempotent.
Qed.

(** *** Addresses without visibility *)

Lemma routed_reads x w : routed (reads x w) = [].
Proof. reflexivity. Qed.

Lemma routed_failed x reply err : routed (failed x reply err) = [].
Proof. reflexivity. Qed.

Lemma routed_none_after x ris presenceType w (l : list JID) (rest : list Event) :
  (forall j, In j l -> hidden j ris) -> routed rest = [] ->
  routed (reads x w ++ broadcasts x ris presenceType w l ++ rest) = [].
Proof.
  intros Hh Hrest.
  rewrite !routed_app, routed_reads, (routed_hidden_broadcasts _ _ _ _ _ Hh), Hrest.
  reflexivity.
Qed.

(** C5: for an address whose roster relation is [none] or [to], or that
    has no roster relation, a broadcast only looks its sessions up: it
    routes no presence, sends and logs nothing and leaves the world as it
    was, so the steps of [block] and of [unblock] for such an address route
    nothing and report no error; and a block or unblock request all of
    whose requested addresses are such routes no presence at all. *)
Theorem hidden_address_gets_no_presence x iq elem w :
  (forall ris j presenceType w',
      hidden j ris ->
      broadcastPresenceMatching x j ris presenceType w' = mkOutcome tt w' [LookupStreams j])
  /\ (forall ris blItms bl j w',
        hidden j ris ->
        routed (events (blockOne x ris blItms bl j w')) = []
        /\ sent (events (blockOne x ris blItms bl j w')) = []
        /\ logged (events (blockOne x ris blItms bl j w')) = []
        /\ routed (events (unblockOne x ris blItms bl j w')) = []
        /\ sent (events (unblockOne x ris blItms bl j w')) = []
        /\ logged (events (unblockOne x ris blItms bl j w')) = [])
  /\ (forall ris jds,
        storage.FetchRosterItems (owner x w) (store w) = Ok ris ->
        extractItemJIDs (requestItems elem) = Ok jds ->
        (forall j, In j jds -> hidden j ris) ->
        routed (events (block x iq elem w)) = []
        /\ (requestItems elem <> [] -> routed (events (unblock x iq elem w)) = [])).
Proof.
  split; [|split].
  - intros ris j presenceType w' Hh.
    rewrite broadcastPresenceMatching_run, broadcastEvents_hidden by exact Hh.
    reflexivity.
  - intros ris blItms bl j w' Hh.
    rewrite blockOne_run, unblockOne_run.
    destruct (isJIDInBlockList j blItms); cbn [events];
      rewrite ?broadcastEvents_hidden by exact Hh; repeat split; reflexivity.
  - intros ris jds Hris Hjds Hh. split.
    + rewrite block_run. unfold block_closed. fold (requestItems elem).
      destruct (Nat.eqb _ 0); [reflexivity|].
      rewrite Hjds, Hris.
      destruct (storage.FetchBlockListItems _ _) as [blItms|err]; [|reflexivity].
      cbv zeta.
      assert (Hadd : forall j, In j (toAdd blItms jds) -> hidden j ris).
      { intros j Hj. apply Hh. unfold toAdd in Hj. apply filter_In in Hj. tauto. }
      destruct (doneEvents_rest x iq elem w) as [Hdone _]. cbv zeta in Hdone.
      destruct (Nat.ltb 0 _); [destruct (storage.failure _ _)|]; cbn [events];
        rewrite <- ?app_assoc; apply routed_none_after; try exact Hadd;
        rewrite ?routed_app, ?Hdone; reflexivity.
    + intros Hitems. rewrite unblock_run. unfold unblock_closed.
      fold (requestItems elem). rewrite Hris.
      destruct (storage.FetchBlockListItems _ _) as [blItms|err]; [|reflexivity].
      cbv zeta.
      destruct (requestItems elem) as [|item items]; [congruence|].
      cbn [length Nat.eqb]. rewrite Hjds.
      assert (Hrem : forall j, In j (toRemove blItms jds) -> hidden j ris).
      { intros j Hj. apply Hh. unfold toRemove in Hj. apply filter_In in Hj. tauto. }
      destruct (doneEvents_rest x iq elem w) as [Hdone _]. cbv zeta in Hdone.
      destruct (storage.failure _ _); cbn [events];
        rewrite <- ?app_assoc; apply routed_none_after; try exact Hrem;
        rewrite ?routed_app, ?Hdone; reflexivity.
Qed.

(** *** Fetching the list *)

Lemma pushEnabled_flagged s w : pushEnabled (flagged s w) s = true.
Proof.
  unfold pushEnabled, flagged. cbn. rewrite Nat.eqb_refl. reflexivity.
Qed.

(** C6: a get request is answered by [sendBlockList]; it leaves the
    storage, hence every block set, as it was and asks no write of it; when
    the read of the block list succeeds it replies with the list and sets
    the push flag of the requesting stream; it fails only when that read
    fails, with an internal-server-error reply, changing nothing. *)
Theorem list_fetch_sets_flag x iq w :
  xml.IsGet iq = true ->
  store (world (ProcessIQ x iq w)) = store w
  /\ writes (events (ProcessIQ x iq w)) = []
  /\ (forall blItms,
        storage.FetchBlockListItems (owner x w) (store w) = Ok blItms ->
        pushEnabled (world (ProcessIQ x iq w)) (stm x) = true
        /\ sent (events (ProcessIQ x iq w)) =
           [(stm x, xml.IQStanza (xml.IQ_AppendElement (blockListElement blItms)
                                                       (xml.ResultIQ iq)))]
        /\ logged (events (ProcessIQ x iq w)) = [])
  /\ (forall err,
        storage.FetchBlockListItems (owner x w) (store w) = Err err ->
        world (ProcessIQ x iq w) = w
        /\ sent (events (ProcessIQ x iq w)) = [(stm x, xml.InternalServerError iq)]
        /\ logged (events (ProcessIQ x iq w)) = [err]).
Proof.
  intros Hget. unfold ProcessIQ. rewrite Hget, sendBlockList_run.
  unfold sendBlockList_closed.
  destruct (storage.FetchBlockListItems (owner x w) (store w)) as [blItms|err];
    cbn [world events].
  - split; [reflexivity|]. split; [reflexivity|]. split.
    + intros b Hb. inversion Hb; subst.
      split; [apply pushEnabled_flagged|]. split; reflexivity.
    + intros e He. discriminate He.
  - split; [reflexivity|]. split; [reflexivity|]. split.
    + intros b Hb. discriminate Hb.
    + intros e He. inversion He; subst. repeat split; reflexivity.
Qed.

(** *** Malformed addresses *)

(** A request was rejected as malformed, without side effects: the only
    stanza sent is the jid-malformed error to the requesting stream (so no
    push was sent), no presence was routed, no write was asked of the storage
    and no reload was signalled. *)
Definition rejects_malformed (o : Outcome unit) (x : XEPBlockingCommand) (iq : xml.IQ) : Prop :=
  sent (events o) = [(stm x, xml.JidMalformedError iq)]
  /\ routed (events o) = []
  /\ writes (events o) = []
  /\ reloads (events o) = [].

(** The sentence "if any address in a block or unblock request fails to
    parse as a valid JID, the handler replies with a jid-malformed stanza
    error and performs no side effects", read as it is written: whatever
    the storage does. *)
Definition malformed_always_rejected (x : XEPBlockingCommand) (iq : xml.IQ)
    (elem : xml.XElement) (w : World) : Prop :=
  forall err,
    extractItemJIDs (requestItems elem) = Err err ->
    rejects_malformed (block x iq elem w) x iq
    /\ rejects_malformed (unblock x iq elem w) x iq.

Lemma extract_error_has_items elem err :
  extractItemJIDs (requestItems elem) = Err err -> Nat.eqb (length (requestItems elem)) 0 = false.
Proof.
  destruct (requestItems elem); [|reflexivity].
  rewrite extractItemJIDs_nil. discriminate.
Qed.

(** C7, as amended: if an address of a block request fails to parse, the
    handler logs the error and replies jid-malformed, and does nothing
    else; if an address of an unblock request fails to parse, the handler
    replies jid-malformed when its reads of the roster and of the block
    list succeeded, and internal-server-error when one of them failed.  In
    every case the world is left as it was: no presence is routed, no write
    is asked of the storage, no push is sent and no reload is signalled. *)
Theorem malformed_address_rejected x iq elem w err :
  extractItemJIDs (requestItems elem) = Err err ->
  block x iq elem w =
    mkOutcome tt w [LogError err; SendElement (stm x) (xml.JidMalformedError iq)]
  /\ rejects_malformed (block x iq elem w) x iq
  /\ world (unblock x iq elem w) = w
  /\ routed (events (unblock x iq elem w)) = []
  /\ writes (events (unblock x iq elem w)) = []
  /\ reloads (events (unblock x iq elem w)) = []
  /\ (forall ris blItms,
        storage.FetchRosterItems (owner x w) (store w) = Ok ris ->
        storage.FetchBlockListItems (owner x w) (store w) = Ok blItms ->
        rejects_malformed (unblock x iq elem w) x iq)
  /\ (forall e,
        storage.FetchRosterItems (owner x w) (store w) = Err e
        \/ storage.FetchBlockListItems (owner x w) (store w) = Err e ->
        sent (events (unblock x iq elem w)) = [(stm x, xml.InternalServerError iq)]).
Proof.
  intros Herr. pose proof (extract_error_has_items elem err Herr) as Hlen.
  assert (Hblock : block x iq elem w =
                   mkOutcome tt w [LogError err; SendElement (stm x) (xml.JidMalformedError iq)]).
  { rewrite block_run. unfold block_closed. fold (requestItems elem).
    rewrite Hlen, Herr. reflexivity. }
  split; [exact Hblock|]. split; [rewrite Hblock; repeat split; reflexivity|].
  rewrite unblock_run. unfold unblock_closed. fold (requestItems elem).
  destruct (storage.FetchRosterItems _ _) as [ris|e1].
  - destruct (storage.FetchBlockListItems _ _) as [blItms|e2].
    + cbv zeta. rewrite Hlen, Herr. cbn [world events].
      do 4 (split; [reflexivity|]). split.
      * intros ris' blItms' _ _. repeat split; reflexivity.
      * intros e [He|He]; discriminate He.
    + cbn [world events]. do 4 (split; [reflexivity|]). split.
      * intros ris' blItms' _ He. discriminate He.
      * intros e _. reflexivity.
  - cbn [world events]. do 4 (split; [reflexivity|]). split.
    + intros ris' blItms' He. discriminate He.
    + intros e _. reflexivity.
Qed.

(** *** The empty item list *)

Lemma sent_pushEvents elem l n s e :
  In (s, e) (sent (pushEvents elem l n)) -> exists id, e = pushStanza id elem.
Proof.
  revert n. induction l as [|s' l IH]; intros n Hin; [destruct Hin|].
  cbn in Hin. destruct Hin as [Heq|Hin].
  - inversion Heq. eexists. reflexivity.
  - exact (IH _ Hin).
Qed.

Lemma sent_doneEvents x iq elem w s e :
  In (s, e) (sent (doneEvents x iq elem w)) -> exists i, e = xml.IQStanza i.
Proof.
  unfold doneEvents.
  change (SendElement (stm x) (xml.IQStanza (xml.ResultIQ iq))
          :: LookupStreams (ownerBareJID x w)
          :: pushEvents elem (pushTargets x w) (uuids w) ++ [ReloadBlockList (owner x w)])
    with ([SendElement (stm x) (xml.IQStanza (xml.ResultIQ iq))]
          ++ [LookupStreams (ownerBareJID x w)]
          ++ pushEvents elem (pushTargets x w) (uuids w) ++ [ReloadBlockList (owner x w)]).
  rewrite !sent_app. cbn [sent flat_map app]. fold (sent).
  intros [Heq|Hin].
  - inversion Heq. eexists. reflexivity.
  - rewrite app_nil_r in Hin. apply sent_pushEvents in Hin. destruct Hin as [id ->].
    eexists. reflexivity.
Qed.

(** A clear-all unblock whose storage calls succeed: the reply, the log,
    the writes and the owner's block set. *)
Lemma clear_all_succeeds x iq elem w ris blItms :
  requestItems elem = [] ->
  storage.FetchRosterItems (owner x w) (store w) = Ok ris ->
  storage.FetchBlockListItems (owner x w) (store w) = Ok blItms ->
  storage.failure (store w) storage.OpDeleteBlockList = None ->
  succeeded x iq (unblock x iq elem w)
  /\ logged (events (unblock x iq elem w)) = []
  /\ writes (events (unblock x iq elem w)) = [storage.CallDeleteBlockList (owner x w)]
  /\ blockSet x (world (unblock x iq elem w)) = [].
Proof.
  intros Hitems Hris Hbl Hdel. unfold succeeded.
  rewrite unblock_run. unfold unblock_closed. fold (requestItems elem).
  rewrite Hris, Hbl, Hitems. cbn [length Nat.eqb]. cbv zeta. rewrite Hdel.
  cbn [world events].
  destruct (doneEvents_rest x iq elem w) as [_ [Hw [_ Hl]]]. cbv zeta in Hw, Hl.
  destruct (broadcasts_only_route x ris xml.AvailableType w (map storedJID blItms))
    as [Hs [Hbw [_ Hbl']]]. cbv zeta in Hs, Hbw, Hbl'.
  rewrite !logged_app, !writes_app, Hw, Hl, Hbw, Hbl'.
  rewrite blockSet_after_write, itemsOf_deleteOwner.
  rewrite sentTo_skip by reflexivity. rewrite sentTo_skip by reflexivity.
  rewrite sentTo_skip by exact Hs. rewrite sentTo_doneEvents, Nat.eqb_refl.
  repeat split; try reflexivity. left. reflexivity.
Qed.

(** C8: a block request with no [item] element is answered with the
    bad-request error and nothing else happens, so the block set is as it
    was; an unblock request with no [item] element is never answered with
    a bad-request or jid-malformed error (the only error it can meet is
    that of a failed storage call) and, when its storage calls succeed, it
    is answered with the result IQ after the one write that deletes the
    owner's whole block list. *)
Theorem empty_item_list_asymmetry x iq elem w :
  requestItems elem = [] ->
  block x iq elem w = mkOutcome tt w [SendElement (stm x) (xml.BadRequestError iq)]
  /\ (forall s i cond,
        In (s, xml.IQError i cond) (sent (events (unblock x iq elem w))) ->
        cond = xml.ErrInternalServerError)
  /\ (forall ris blItms,
        storage.FetchRosterItems (owner x w) (store w) = Ok ris ->
        storage.FetchBlockListItems (owner x w) (store w) = Ok blItms ->
        storage.failure (store w) storage.OpDeleteBlockList = None ->
        succeeded x iq (unblock x iq elem w)
        /\ logged (events (unblock x iq elem w)) = []
        /\ writes (events (unblock x iq elem w)) = [storage.CallDeleteBlockList (owner x w)]
        /\ blockSet x (world (unblock x iq elem w)) = []).
Proof.
  intros Hitems. split; [|split].
  - rewrite block_run. unfold block_closed. fold (requestItems elem).
    rewrite Hitems. reflexivity.
  - intros s i cond. rewrite unblock_run. unfold unblock_closed.
    fold (requestItems elem). rewrite Hitems. cbn [length Nat.eqb].
    destruct (storage.FetchRosterItems _ _) as [ris|e1].
    2: { cbn. intros [H|[]]. inversion H. reflexivity. }
    destruct (storage.FetchBlockListItems _ _) as [blItms|e2].
    2: { cbn. intros [H|[]]. inversion H. reflexivity. }
    cbv zeta. destruct (storage.failure _ _) as [e3|].
    { cbn. intros [H|[]]. inversion H. reflexivity. }
    cbn [events]. rewrite !sent_app, sent_reads, sent_broadcasts. cbn [app sent flat_map].
    intros H. apply sent_doneEvents in H. destruct H as [i' H]. discriminate H.
  - intros ris blItms Hris Hbl Hdel.
    exact (clear_all_succeeds x iq elem w ris blItms Hitems Hris Hbl Hdel).
Qed.

(** *** No duplicates in the block set *)

Lemma NoDup_block_store u elem st :
  NoDup (storage.blockListItems st) ->
  NoDup (storage.blockListItems (block_store u elem st)).
Proof.
  intros Hnd. unfold block_store.
  destruct (extractItemJIDs _) as [jds|err]; [|exact Hnd].
  destruct (storage.FetchRosterItems _ _) as [ris|err]; [|exact Hnd].
  destruct (storage.FetchBlockListItems _ _) as [blItms|err]; [|exact Hnd].
  cbv zeta. unfold storage.InsertOrUpdateBlockListItems.
  destruct (storage.failure _ _); [exact Hnd|].
  cbn. apply insertOrUpdateAll_NoDup. exact Hnd.
Qed.

(** C9: if the block-list table holds no (owner, blocked) pair twice, it
    holds none twice after a block request, whatever the request lists
    (the same address several times included), and so does the block set of
    every owner. *)
Theorem block_keeps_block_set_unique x iq blockElem w :
  NoDup (storage.blockListItems (store w)) ->
  NoDup (storage.blockListItems (store (world (block x iq blockElem w))))
  /\ forall u,
       NoDup (storage.itemsOf u
                (storage.blockListItems (store (world (block x iq blockElem w))))).
Proof.
  intros Hnd.
  assert (H : NoDup (storage.blockListItems (store (world (block x iq blockElem w))))).
  { rewrite store_of_block. apply NoDup_block_store. exact Hnd. }
  split; [exact H|]. intros u. apply NoDup_filter. exact H.
Qed.

(** *** A stored address that does not parse *)




(** ** Further properties of the handler *)

(** *** Extracting the JIDs of a request *)

(** What [extractItemJIDs] gives [NewJIDString] for an item: the pointer and
    the error it returns for the item's [jid] attribute, string preparation
    not skipped. *)
Definition itemJID (item : xml.XElement) : JID * option error :=
  NewJIDString (xml.Get "jid" (xml.Attributes item)) false.

Definition parses (item : xml.XElement) : Prop := snd (itemJID item) = None.

Lemma extractItemJIDs_from_spec (items : list xml.XElement) (acc : list JID) :
  (forall jds,
      extractItemJIDs_from items acc = Ok jds <->
      Forall parses items /\ jds = acc ++ map (fun item => fst (itemJID item)) items)
  /\ (forall err,
        extractItemJIDs_from items acc = Err err <->
        exists pre bad post,
          items = pre ++ bad :: post /\ Forall parses pre /\ snd (itemJID bad) = Some err).
Proof.
  revert acc. induction items as [|item items IH]; intros acc.
  - split.
    + intros jds. cbn. rewrite app_nil_r. split.
      * intros H. inversion H. split; [constructor|reflexivity].
      * intros [_ ->]. reflexivity.
    + intros err. cbn. split; [discriminate|].
      intros [pre [bad [post [H _]]]]. destruct pre; discriminate H.
  - cbn [extractItemJIDs_from]. fold (itemJID item).
    destruct (itemJID item) as [j e] eqn:Hitem. destruct e as [e|].
    + split.
      * intros jds. split; [discriminate|].
        intros [Hall _]. inversion Hall as [|? ? Hp _]; subst.
        unfold parses in Hp. rewrite Hitem in Hp. discriminate Hp.
      * intros err. split.
        -- intros H. inversion H; subst. exists [], item, items.
           split; [reflexivity|]. split; [constructor|]. rewrite Hitem. reflexivity.
        -- intros [pre [bad [post [Heq [Hpre Hbad]]]]].
           destruct pre as [|p pre]; cbn in Heq; inversion Heq; subst.
           ++ rewrite Hitem in Hbad. cbn in Hbad. congruence.
           ++ inversion Hpre as [|? ? Hp _]; subst.
              unfold parses in Hp. rewrite Hitem in Hp. discriminate Hp.
    + destruct (IH (acc ++ [j])) as [IHok IHerr]. split.
      * intros jds. rewrite IHok. cbn [map]. rewrite Hitem. cbn [fst].
        rewrite <- app_assoc. cbn [app]. split.
        -- intros [Hall ->]. split; [|reflexivity].
           constructor; [unfold parses; rewrite Hitem; reflexivity|exact Hall].
        -- intros [Hall ->]. split; [|reflexivity]. inversion Hall; assumption.
      * intros err. rewrite IHerr. split.
        -- intros [pre [bad [post [-> [Hpre Hbad]]]]].
           exists (item :: pre), bad, post. split; [reflexivity|].
           split; [|exact Hbad].
           constructor; [unfold parses; rewrite Hitem; reflexivity|exact Hpre].
        -- intros [pre [bad [post [Heq [Hpre Hbad]]]]].
           destruct pre as [|p pre]; cbn in Heq; inversion Heq; subst.
           ++ rewrite Hitem in Hbad. discriminate Hbad.
           ++ exists pre, bad, post. split; [reflexivity|].
              split; [inversion Hpre; assumption|exact Hbad].
Qed.

(** X1: [extractItemJIDs] succeeds exactly when the [jid] attribute of every
    item parses, and then returns the parsed JIDs in the order of the items,
    one per item; it fails exactly when some item does not parse, and then
    returns the error of the first such item, whatever follows it. *)
Theorem extractItemJIDs_all_or_first_error (items : list xml.XElement) :
  (forall jds,
      extractItemJIDs items = Ok jds <->
      Forall parses items /\ jds = map (fun item => fst (itemJID item)) items)
  /\ (forall err,
        extractItemJIDs items = Err err <->
        exists pre bad post,
          items = pre ++ bad :: post /\ Forall parses pre /\ snd (itemJID bad) = Some err).
Proof. exact (extractItemJIDs_from_spec items []). Qed.

(** *** Dispatch *)

(** X2: an IQ that [MatchesIQ] turns down and that is not a get is ignored
    by [ProcessIQ]: nothing is read, written or sent, and the world is as it
    was.  (A get IQ is answered by [sendBlockList] whatever it carries.) *)
Theorem unmatched_iq_is_ignored x iq w :
  MatchesIQ x iq = false ->
  xml.IsGet iq = false ->
  ProcessIQ x iq w = mkOutcome tt w [].
Proof.
  unfold MatchesIQ, ProcessIQ. cbv zeta. intros Hm Hget. rewrite Hget in *.
  cbn [andb orb] in Hm.
  destruct (xml.IsSet iq); [|reflexivity]. cbn [andb] in Hm.
  destruct (xml.ChildNamespace "block" blockingCommandNamespace (xml.IQ_Elements iq));
    [discriminate Hm|].
  destruct (xml.ChildNamespace "unblock" blockingCommandNamespace (xml.IQ_Elements iq));
    [discriminate Hm|].
  reflexivity.
Qed.

(** *** The streams under the handler *)

Lemma manager_of_unblock x iq unblockElem w :
  manager (world (unblock x iq unblockElem w)) = manager w.
Proof.
  rewrite unblock_run. unfold unblock_closed.
  repeat match goal with
         | |- context [if ?b then _ else _] => destruct b
         | |- context [match ?r with Ok _ => _ | Err _ => _ end] => destruct r
         | |- context [match ?r with Some _ => _ | None => _ end] => destruct r
         end; cbn [world]; rewrite ?manager_advance; reflexivity.
Qed.

(** X3: [block] and [unblock] leave every stream object and the registry
    as they were, whatever their outcome; [sendBlockList] changes at most the
    context of the stream it serves: the registry, every other stream
    object, and the user name, JID and presence of its own stream are as
    before, and no push flag that was set is cleared. *)
Theorem handlers_keep_streams x iq elem w :
  manager (world (block x iq elem w)) = manager w
  /\ manager (world (unblock x iq elem w)) = manager w
  /\ c2s.registered (manager (world (sendBlockList x iq w))) = c2s.registered (manager w)
  /\ (forall s, s <> stm x ->
        c2s.object (manager (world (sendBlockList x iq w))) s = c2s.object (manager w) s)
  /\ c2s.Username (c2s.object (manager (world (sendBlockList x iq w))) (stm x))
     = c2s.Username (c2s.object (manager w) (stm x))
  /\ c2s.StreamJID (c2s.object (manager (world (sendBlockList x iq w))) (stm x))
     = c2s.StreamJID (c2s.object (manager w) (stm x))
  /\ c2s.Presence (c2s.object (manager (world (sendBlockList x iq w))) (stm x))
     = c2s.Presence (c2s.object (manager w) (stm x))
  /\ (forall s, pushEnabled w s = true ->
                pushEnabled (world (sendBlockList x iq w)) s = true).
Proof.
  split; [apply manager_of_block|]. split; [apply manager_of_unblock|].
  rewrite sendBlockList_run. unfold sendBlockList_closed.
  destruct (storage.FetchBlockListItems _ _) as [blItms|err]; cbn [world].
  - unfold flagged, pushEnabled. cbn. rewrite Nat.eqb_refl.
    repeat split; try reflexivity.
    + intros s Hs. replace (Nat.eqb s (stm x)) with false; [reflexivity|].
      symmetry. apply Nat.eqb_neq. exact Hs.
    + intros s Hs. destruct (Nat.eqb s (stm x)); [reflexivity|exact Hs].
  - repeat split; try reflexivity. intros s Hs. exact Hs.
Qed.

(** *** The reply to a list fetch *)

Lemma blockListElement_fold (blItms : list BlockListItem) (e : xml.XElement) :
  fold_left
    (fun blockList blItm =>
       xml.AppendElement
         (xml.SetAttribute "jid" (bli_JID blItm) (xml.NewElementName "item")) blockList)
    blItms e
  = xml.Element (xml.Name e) (xml.Attributes e)
      (xml.Elements e
       ++ map (fun blItm => xml.Element "item" [("jid", bli_JID blItm)] []) blItms).
Proof.
  revert e. induction blItms as [|b l IH]; intros e.
  - cbn. rewrite app_nil_r. destruct e; reflexivity.
  - cbn [fold_left map]. rewrite IH. cbn. rewrite <- app_assoc. reflexivity.
Qed.

(** X4: the element [sendBlockList] replies with is named [blocklist], in
    the blocking namespace, and has exactly one [item] child per stored
    block-list item, in the order the storage returned them, each with the
    item's JID as its [jid] attribute; so reading the [jid] attributes of its
    items back gives the stored JIDs. *)
Theorem list_reply_holds_stored_jids (blItms : list BlockListItem) :
  xml.Name (blockListElement blItms) = "blocklist"
  /\ xml.Namespace (blockListElement blItms) = blockingCommandNamespace
  /\ xml.Children "item" (xml.Elements (blockListElement blItms))
     = xml.Elements (blockListElement blItms)
  /\ map (fun item => xml.Get "jid" (xml.Attributes item))
         (xml.Children "item" (xml.Elements (blockListElement blItms)))
     = map bli_JID blItms.
Proof.
  unfold blockListElement. rewrite blockListElement_fold.
  unfold xml.NewElementNamespace. cbn [xml.Name xml.Attributes xml.Elements app].
  assert (H : forall l : list BlockListItem,
            xml.Children "item"
              (map (fun blItm => xml.Element "item" [("jid", bli_JID blItm)] []) l)
            = map (fun blItm => xml.Element "item" [("jid", bli_JID blItm)] []) l).
  { induction l as [|b l IH]; [reflexivity|]. cbn. f_equal. exact IH. }
  rewrite H. repeat split; try reflexivity.
  rewrite map_map. cbn. reflexivity.
Qed.

(** *** Replies *)

(** A stanza that answers a request: an error, or an IQ of type [result]
    (a push is an IQ of type [set]). *)
Definition isReply (st : xml.Stanza) : bool :=
  match st with
  | xml.IQError _ _ => true
  | xml.IQStanza i => String.eqb (xml.IQ_Type i) xml.ResultType
  | xml.PresenceStanza _ => false
  end.

(** The replies sent, each with the stream it was sent to. *)
Definition replies (evs : list Event) : list (c2s.Stream * xml.Stanza) :=
  filter (fun p => isReply (snd p)) (sent evs).

(** The request [iq] was answered once, on the stream the handler serves,
    with an error for [iq] or with a result IQ that has the identifier of
    [iq]. *)
Definition answeredOnce (x : XEPBlockingCommand) (iq : xml.IQ) (o : Outcome unit) : Prop :=
  exists r,
    replies (events o) = [(stm x, r)]
    /\ ((exists cond, r = xml.IQError iq cond)
        \/ (exists i, r = xml.IQStanza i
                      /\ xml.IQ_ID i = xml.IQ_ID iq /\ xml.IQ_Type i = xml.ResultType)).

Lemma replies_app evs1 evs2 : replies (evs1 ++ evs2) = replies evs1 ++ replies evs2.
Proof. unfold replies. rewrite sent_app. apply filter_app. Qed.

Lemma replies_skip pre evs : sent pre = [] -> replies (pre ++ evs) = replies evs.
Proof. intros H. rewrite replies_app. unfold replies at 1. rewrite H. reflexivity. Qed.

Lemma replies_pushEvents elem l n : replies (pushEvents elem l n) = [].
Proof.
  revert n. induction l as [|s l IH]; intros n; [reflexivity|].
  cbn [pushEvents]. change (SendElement s (pushStanza (uuid_New n) elem)
                            :: pushEvents elem l (S n))
    with ([SendElement s (pushStanza (uuid_New n) elem)] ++ pushEvents elem l (S n)).
  rewrite replies_app, IH. reflexivity.
Qed.

Lemma replies_doneEvents x iq elem w :
  replies (doneEvents x iq elem w) = [(stm x, xml.IQStanza (xml.ResultIQ iq))].
Proof.
  unfold doneEvents.
  change (SendElement (stm x) (xml.IQStanza (xml.ResultIQ iq))
          :: LookupStreams (ownerBareJID x w)
          :: pushEvents elem (pushTargets x w) (uuids w) ++ [ReloadBlockList (owner x w)])
    with ([SendElement (stm x) (xml.IQStanza (xml.ResultIQ iq));
           LookupStreams (ownerBareJID x w)]
          ++ pushEvents elem (pushTargets x w) (uuids w) ++ [ReloadBlockList (owner x w)]).
  rewrite !replies_app, replies_pushEvents. reflexivity.
Qed.

Lemma reloads_reads x w : reloads (reads x w) = [].
Proof. reflexivity. Qed.

Lemma reloads_broadcasts x ris presenceType w l :
  reloads (broadcasts x ris presenceType w l) = [].
Proof. apply broadcasts_only_route. Qed.

(** The ways [block] and [unblock] end: after events that send nothing to
    any stream and signal no reload, either the result reply, the pushes and
    the reload signal, or one error reply for [iq]. *)
Definition endsWell (x : XEPBlockingCommand) (iq : xml.IQ) (elem : xml.XElement)
    (w : World) (evs : list Event) : Prop :=
  exists mid, sent mid = [] /\ reloads mid = [] /\ evs = mid ++ doneEvents x iq elem w.

Definition endsInError (x : XEPBlockingCommand) (iq : xml.IQ) (evs : list Event) : Prop :=
  exists mid cond,
    sent mid = [] /\ reloads mid = []
    /\ evs = mid ++ [SendElement (stm x) (xml.IQError iq cond)].

Lemma failed_endsInError x iq pre cond err :
  sent pre = [] -> reloads pre = [] ->
  endsInError x iq (pre ++ failed x (xml.IQError iq cond) err).
Proof.
  intros Hs Hr. exists (pre ++ [LogError err]), cond.
  rewrite sent_app, reloads_app, Hs, Hr, <- app_assoc. repeat split; reflexivity.
Qed.

Lemma block_ends x iq elem w :
  endsWell x iq elem w (events (block x iq elem w))
  \/ endsInError x iq (events (block x iq elem w)).
Proof.
  rewrite block_run. unfold block_closed.
  destruct (Nat.eqb _ 0).
  { right. exists [], xml.ErrBadRequest. repeat split; reflexivity. }
  destruct (extractItemJIDs _) as [jds|err].
  2: { right. exact (failed_endsInError x iq [] _ err eq_refl eq_refl). }
  destruct (storage.FetchRosterItems _ _) as [ris|err].
  2: { right. exact (failed_endsInError x iq [fetchRoster x w] _ err eq_refl eq_refl). }
  destruct (storage.FetchBlockListItems _ _) as [blItms|err].
  2: { right. exact (failed_endsInError x iq (reads x w) _ err eq_refl eq_refl). }
  cbv zeta.
  assert (Hs : sent (reads x w ++ broadcasts x ris xml.UnavailableType w (toAdd blItms jds)) = []).
  { rewrite sent_app, sent_reads, sent_broadcasts. reflexivity. }
  assert (Hr : reloads (reads x w
                        ++ broadcasts x ris xml.UnavailableType w (toAdd blItms jds)) = []).
  { rewrite reloads_app, reloads_reads, reloads_broadcasts. reflexivity. }
  destruct (Nat.ltb 0 _).
  - destruct (storage.failure _ _) as [err|]; cbn [events]; rewrite app_assoc.
    + right. apply failed_endsInError.
      * rewrite sent_app, Hs. reflexivity.
      * rewrite reloads_app, Hr. reflexivity.
    + left. eexists. split; [|split; [|reflexivity]].
      * rewrite sent_app, Hs. reflexivity.
      * rewrite reloads_app, Hr. reflexivity.
  - left. cbn [events]. eexists. split; [exact Hs|]. split; [exact Hr|reflexivity].
Qed.

Lemma unblock_ends x iq elem w :
  endsWell x iq elem w (events (unblock x iq elem w))
  \/ endsInError x iq (events (unblock x iq elem w)).
Proof.
  rewrite unblock_run. unfold unblock_closed.
  destruct (storage.FetchRosterItems _ _) as [ris|err].
  2: { right. exact (failed_endsInError x iq [fetchRoster x w] _ err eq_refl eq_refl). }
  destruct (storage.FetchBlockListItems _ _) as [blItms|err].
  2: { right. exact (failed_endsInError x iq (reads x w) _ err eq_refl eq_refl). }
  cbv zeta. destruct (Nat.eqb _ 0).
  - destruct (storage.failure _ _) as [err|]; cbn [events].
    + right. rewrite app_assoc. apply failed_endsInError; reflexivity.
    + left. rewrite !app_assoc. eexists. split; [|split; [|reflexivity]].
      * rewrite !sent_app, sent_reads, sent_broadcasts. reflexivity.
      * rewrite !reloads_app, reloads_reads, reloads_broadcasts. reflexivity.
  - destruct (extractItemJIDs _) as [jds|err].
    2: { right. exact (failed_endsInError x iq (reads x w) _ err eq_refl eq_refl). }
    assert (Hs : sent (reads x w
                       ++ broadcasts x ris xml.AvailableType w (toRemove blItms jds)) = []).
    { rewrite sent_app, sent_reads, sent_broadcasts. reflexivity. }
    assert (Hr : reloads (reads x w
                          ++ broadcasts x ris xml.AvailableType w (toRemove blItms jds)) = []).
    { rewrite reloads_app, reloads_reads, reloads_broadcasts. reflexivity. }
    destruct (storage.failure _ _) as [err|]; cbn [events]; rewrite app_assoc.
    + right. apply failed_endsInError.
      * rewrite sent_app, Hs. reflexivity.
      * rewrite reloads_app, Hr. reflexivity.
    + left. eexists. split; [|split; [|reflexivity]].
      * rewrite sent_app, Hs. reflexivity.
      * rewrite reloads_app, Hr. reflexivity.
Qed.

Lemma endsWell_answeredOnce x iq elem w (o : Outcome unit) :
  endsWell x iq elem w (events o) -> answeredOnce x iq o.
Proof.
  intros [mid [Hs [_ Hev]]]. exists (xml.IQStanza (xml.ResultIQ iq)). split.
  - rewrite Hev, replies_skip by exact Hs. apply replies_doneEvents.
  - right. eexists. repeat split; reflexivity.
Qed.

Lemma endsInError_answeredOnce x iq (o : Outcome unit) :
  endsInError x iq (events o) -> answeredOnce x iq o.
Proof.
  intros [mid [cond [Hs [_ Hev]]]]. exists (xml.IQError iq cond). split.
  - rewrite Hev, replies_skip by exact Hs. reflexivity.
  - left. exists cond. reflexivity.
Qed.

Lemma sendBlockList_answeredOnce x iq w : answeredOnce x iq (sendBlockList x iq w).
Proof.
  rewrite sendBlockList_run. unfold sendBlockList_closed.
  destruct (storage.FetchBlockListItems _ _) as [blItms|err].
  - eexists. split; [reflexivity|]. right. eexists. repeat split; reflexivity.
  - eexists. split; [reflexivity|]. left. eexists. reflexivity.
Qed.

Lemma block_answeredOnce x iq elem w : answeredOnce x iq (block x iq elem w).
Proof.
  destruct (block_ends x iq elem w) as [H|H];
    [exact (endsWell_answeredOnce x iq elem w _ H)|exact (endsInError_answeredOnce x iq _ H)].
Qed.

Lemma unblock_answeredOnce x iq elem w : answeredOnce x iq (unblock x iq elem w).
Proof.
  destruct (unblock_ends x iq elem w) as [H|H];
    [exact (endsWell_answeredOnce x iq elem w _ H)|exact (endsInError_answeredOnce x iq _ H)].
Qed.

(** X5: every IQ that [MatchesIQ] accepts is answered by [ProcessIQ]
    exactly once, on the stream the handler serves, whatever the storage
    does and whatever the request holds: with an error stanza for the IQ or
    with a result IQ that has its identifier.  Every other stanza the
    handler sends is a push (type [set]) or goes to the router. *)
Theorem matched_iq_is_answered_once x iq w :
  MatchesIQ x iq = true -> answeredOnce x iq (ProcessIQ x iq w).
Proof.
  unfold MatchesIQ, ProcessIQ. cbv zeta. intros Hm.
  destruct (xml.IsGet iq); [apply sendBlockList_answeredOnce|].
  cbn [andb orb] in Hm. destruct (xml.IsSet iq); [|discriminate Hm].
  cbn [andb] in Hm.
  destruct (xml.ChildNamespace "block" blockingCommandNamespace (xml.IQ_Elements iq));
    [apply block_answeredOnce|].
  destruct (xml.ChildNamespace "unblock" blockingCommandNamespace (xml.IQ_Elements iq));
    [apply unblock_answeredOnce|discriminate Hm].
Qed.

Lemma endsInError_not_succeeded x iq (o : Outcome unit) :
  endsInError x iq (events o) -> ~ succeeded x iq o.
Proof.
  intros [mid [cond [Hs [_ Hev]]]]. unfold succeeded. rewrite Hev.
  rewrite sentTo_skip by exact Hs. cbn. rewrite Nat.eqb_refl.
  intros [H|[]]. discriminate H.
Qed.

Lemma reloads_doneEvents x iq elem w : reloads (doneEvents x iq elem w) = [owner x w].
Proof. apply doneEvents_rest. Qed.

(** The reload signal and the pushes go with the result reply. *)
Definition reloadsWithSuccess (x : XEPBlockingCommand) (iq : xml.IQ) (w : World)
    (o : Outcome unit) : Prop :=
  (succeeded x iq o -> reloads (events o) = [owner x w])
  /\ (~ succeeded x iq o ->
      reloads (events o) = []
      /\ exists cond, sent (events o) = [(stm x, xml.IQError iq cond)]).

Lemma ends_reloadsWithSuccess x iq elem w (o : Outcome unit) :
  endsWell x iq elem w (events o) \/ endsInError x iq (events o) ->
  reloadsWithSuccess x iq w o.
Proof.
  intros [Hw|He]; split.
  - intros _. destruct Hw as [mid [_ [Hr ->]]].
    rewrite reloads_app, Hr, reloads_doneEvents. reflexivity.
  - intros Hn. exfalso. apply Hn. destruct Hw as [mid [Hs [_ Hev]]].
    unfold succeeded. rewrite Hev, sentTo_skip by exact Hs.
    rewrite sentTo_doneEvents, Nat.eqb_refl. left. reflexivity.
  - intros Hok. exfalso. exact (endsInError_not_succeeded x iq o He Hok).
  - intros _. destruct He as [mid [cond [Hs [Hr ->]]]].
    rewrite reloads_app, sent_app, Hr, Hs. split; [reflexivity|].
    exists cond. reflexivity.
Qed.

(** X6: [block] and [unblock] signal the reload of the block list exactly
    when they answer with the result IQ, once and for the user of the
    stream the handler serves; when they do not, no reload is signalled and
    the error reply is the only stanza sent to any stream, so nothing is
    pushed. *)
Theorem reload_goes_with_success x iq elem w :
  reloadsWithSuccess x iq w (block x iq elem w)
  /\ reloadsWithSuccess x iq w (unblock x iq elem w).
Proof.
  split.
  - exact (ends_reloadsWithSuccess x iq elem w _ (block_ends x iq elem w)).
  - exact (ends_reloadsWithSuccess x iq elem w _ (unblock_ends x iq elem w)).
Qed.

(** *** What is asked of the storage, and what is routed *)

Lemma writes_reads x w : writes (reads x w) = [].
Proof. reflexivity. Qed.

Lemma writes_broadcasts x ris presenceType w l :
  writes (broadcasts x ris presenceType w l) = [].
Proof. apply broadcasts_only_route. Qed.

Lemma writes_failed x reply err : writes (failed x reply err) = [].
Proof. reflexivity. Qed.

Lemma writes_doneEvents x iq elem w : writes (doneEvents x iq elem w) = [].
Proof. apply doneEvents_rest. Qed.

Lemma routed_doneEvents x iq elem w : routed (doneEvents x iq elem w) = [].
Proof. apply doneEvents_rest. Qed.

Lemma routed_broadcasts_exact x ris presenceType w (l : list JID) :
  routed (broadcasts x ris presenceType w l) =
  flat_map (fun j => map (routedPresence x presenceType w) (sessionsOf j w))
           (filter (fun j => isSubscribedFrom j ris) l).
Proof.
  unfold broadcasts. induction l as [|j l IH]; [reflexivity|].
  cbn [flat_map filter]. rewrite routed_app, routed_broadcastEvents, IH.
  destruct (isSubscribedFrom j ris); reflexivity.
Qed.

Lemma nil_or_not {A : Type} (l : list A) : l = [] \/ l <> [].
Proof. destruct l; [left; reflexivity|right; discriminate]. Qed.

Lemma filter_filter {A : Type} (p q : A -> bool) (l : list A) :
  filter q (filter p l) = filter (fun a => p a && q a) l.
Proof.
  induction l as [|a l IH]; [reflexivity|].
  cbn [filter]. destruct (p a); cbn [filter andb]; rewrite IH; reflexivity.
Qed.

(** The presence [block] routes for the stream [s], and the one [unblock]
    routes for it: the presence of [s], unavailable or available with the
    payload [s] last sent, addressed to the owner's bare JID. *)
Definition unavailableOf (x : XEPBlockingCommand) (w : World) (s : c2s.Stream) : xml.Presence :=
  xml.mkPresence (jidOf w s) (ownerBareJID x w) xml.UnavailableType [].

Definition availableOf (x : XEPBlockingCommand) (w : World) (s : c2s.Stream) : xml.Presence :=
  xml.mkPresence (jidOf w s) (ownerBareJID x w) xml.AvailableType (lastPayload w s).

Lemma routed_unavailable x ris w (l : list JID) :
  routed (broadcasts x ris xml.UnavailableType w l) =
  flat_map (fun j => map (unavailableOf x w) (sessionsOf j w))
           (filter (fun j => isSubscribedFrom j ris) l).
Proof.
  rewrite routed_broadcasts_exact. apply flat_map_ext. intros j.
  apply map_ext. intros s. apply routedPresence_unavailable.
Qed.

Lemma routed_available x ris w (l : list JID) :
  routed (broadcasts x ris xml.AvailableType w l) =
  flat_map (fun j => map (availableOf x w) (sessionsOf j w))
           (filter (fun j => isSubscribedFrom j ris) l).
Proof.
  rewrite routed_broadcasts_exact. apply flat_map_ext. intros j.
  apply map_ext. intros s. apply routedPresence_available.
Qed.

(** The events of [block] once its request is parsed and its reads are
    done: the broadcasts, then what follows them. *)
Lemma block_after_reads x iq elem w jds ris blItms :
  extractItemJIDs (requestItems elem) = Ok jds ->
  requestItems elem <> [] ->
  storage.FetchRosterItems (owner x w) (store w) = Ok ris ->
  storage.FetchBlockListItems (owner x w) (store w) = Ok blItms ->
  exists rest,
    events (block x iq elem w) =
      reads x w ++ broadcasts x ris xml.UnavailableType w (toAdd blItms jds) ++ rest
    /\ routed rest = []
    /\ writes rest =
       match toAdd blItms jds with
       | [] => []
       | _ :: _ => [storage.CallInsertOrUpdateBlockListItems
                      (map (itemFor x w) (toAdd blItms jds))]
       end.
Proof.
  intros Hjds Hitems Hris Hbl.
  rewrite block_run. unfold block_closed. fold (requestItems elem).
  destruct (requestItems elem) as [|item items]; [congruence|].
  cbn [length Nat.eqb]. rewrite Hjds, Hris, Hbl. cbv zeta.
  destruct (toAdd blItms jds) as [|j adds] eqn:Hadds.
  - cbn [map length Nat.ltb Nat.leb events]. eexists. rewrite <- app_assoc.
    split; [reflexivity|]. split; [apply routed_doneEvents|apply writes_doneEvents].
  - cbn [map length Nat.ltb Nat.leb].
    destruct (storage.failure _ _) as [err|]; cbn [events]; rewrite <- app_assoc;
      eexists; (split; [reflexivity|]).
    + split; reflexivity.
    + rewrite routed_app, writes_app, routed_doneEvents, writes_doneEvents.
      split; reflexivity.
Qed.

(** X7: once the request is parsed and the roster and the block list are
    read, [block] asks the storage for at most one write: the insertion, in
    one batch and in request order, of one item under the owner's user name
    for each requested address that is not in the block list it read; when
    every requested address is already there it asks for no write at all. *)
Theorem block_writes_what_is_new x iq elem w jds ris blItms :
  extractItemJIDs (requestItems elem) = Ok jds ->
  storage.FetchRosterItems (owner x w) (store w) = Ok ris ->
  storage.FetchBlockListItems (owner x w) (store w) = Ok blItms ->
  writes (events (block x iq elem w)) =
  match filter (fun j => negb (isJIDInBlockList j blItms)) jds with
  | [] => []
  | _ :: _ =>
      [storage.CallInsertOrUpdateBlockListItems
         (map (fun j => mkBlockListItem (owner x w) (JID_String j))
              (filter (fun j => negb (isJIDInBlockList j blItms)) jds))]
  end.
Proof.
  intros Hjds Hris Hbl.
  destruct (nil_or_not (requestItems elem)) as [Hitems|Hitems].
  - rewrite Hitems, extractItemJIDs_nil in Hjds. inversion Hjds; subst.
    rewrite block_run. unfold block_closed. fold (requestItems elem).
    rewrite Hitems. reflexivity.
  - destruct (block_after_reads x iq elem w jds ris blItms Hjds Hitems Hris Hbl)
      as [rest [Hev [_ Hw]]].
    rewrite Hev, !writes_app, writes_reads, writes_broadcasts, Hw. reflexivity.
Qed.

(** X8: once the request is parsed and the roster and the block list are
    read, the presences [block] routes are exactly, in request order, one
    unavailable presence with no payload for each live session of each
    requested address that is not in the block list read and that the
    roster makes visible, its sender the JID of that session and its
    recipient the owner's bare JID; this does not depend on the write that
    follows, which may fail. *)
Theorem block_routes_exactly x iq elem w jds ris blItms :
  extractItemJIDs (requestItems elem) = Ok jds ->
  storage.FetchRosterItems (owner x w) (store w) = Ok ris ->
  storage.FetchBlockListItems (owner x w) (store w) = Ok blItms ->
  routed (events (block x iq elem w)) =
  flat_map (fun j => map (unavailableOf x w) (sessionsOf j w))
           (filter (fun j => negb (isJIDInBlockList j blItms) && isSubscribedFrom j ris) jds).
Proof.
  intros Hjds Hris Hbl.
  destruct (nil_or_not (requestItems elem)) as [Hitems|Hitems].
  - rewrite Hitems, extractItemJIDs_nil in Hjds. inversion Hjds; subst.
    rewrite block_run. unfold block_closed. fold (requestItems elem).
    rewrite Hitems. reflexivity.
  - destruct (block_after_reads x iq elem w jds ris blItms Hjds Hitems Hris Hbl)
      as [rest [Hev [Hr _]]].
    rewrite Hev, !routed_app, routed_reads, Hr, app_nil_r, routed_unavailable.
    unfold toAdd. rewrite filter_filter. reflexivity.
Qed.

(** The events of [unblock] for a request with items, once it is parsed and
    the reads are done. *)
Lemma unblock_after_reads x iq elem w jds ris blItms :
  requestItems elem <> [] ->
  extractItemJIDs (requestItems elem) = Ok jds ->
  storage.FetchRosterItems (owner x w) (store w) = Ok ris ->
  storage.FetchBlockListItems (owner x w) (store w) = Ok blItms ->
  exists rest,
    events (unblock x iq elem w) =
      reads x w ++ broadcasts x ris xml.AvailableType w (toRemove blItms jds)
      ++ StorageCall (storage.CallDeleteBlockListItems
                        (map (itemFor x w) (toRemove blItms jds))) :: rest
    /\ routed rest = [] /\ writes rest = [].
Proof.
  intros Hitems Hjds Hris Hbl.
  rewrite unblock_run. unfold unblock_closed. fold (requestItems elem).
  rewrite Hris, Hbl. cbv zeta.
  destruct (requestItems elem) as [|item items]; [congruence|].
  cbn [length Nat.eqb]. rewrite Hjds.
  destruct (storage.failure _ _) as [err|]; cbn [events]; rewrite <- app_assoc;
    eexists; (split; [reflexivity|]).
  - split; reflexivity.
  - split; [apply routed_doneEvents|apply writes_doneEvents].
Qed.

(** X9: an unblock request with items, once parsed and with its reads
    done, always asks the storage for exactly one write, also when nothing
    is to be removed: the deletion, in one batch and in request order, of
    the item under the owner's user name of each requested address that is
    in the block list it read. *)
Theorem unblock_writes_what_is_blocked x iq elem w jds ris blItms :
  requestItems elem <> [] ->
  extractItemJIDs (requestItems elem) = Ok jds ->
  storage.FetchRosterItems (owner x w) (store w) = Ok ris ->
  storage.FetchBlockListItems (owner x w) (store w) = Ok blItms ->
  writes (events (unblock x iq elem w)) =
  [storage.CallDeleteBlockListItems
     (map (fun j => mkBlockListItem (owner x w) (JID_String j))
          (filter (fun j => isJIDInBlockList j blItms) jds))].
Proof.
  intros Hitems Hjds Hris Hbl.
  destruct (unblock_after_reads x iq elem w jds ris blItms Hitems Hjds Hris Hbl)
    as [rest [Hev [_ Hw]]].
  rewrite Hev, !writes_app, writes_reads, writes_broadcasts.
  change (writes (?c :: rest)) with (writes [c] ++ writes rest).
  rewrite Hw. reflexivity.
Qed.

(** X10: the presences such an unblock routes are exactly, in request
    order, one available presence for each live session of each requested
    address that is in the block list read and that the roster makes
    visible, its sender the JID of that session, its recipient the owner's
    bare JID and its payload the one that session last sent; this does not
    depend on the deletion that follows. *)
Theorem unblock_routes_exactly x iq elem w jds ris blItms :
  requestItems elem <> [] ->
  extractItemJIDs (requestItems elem) = Ok jds ->
  storage.FetchRosterItems (owner x w) (store w) = Ok ris ->
  storage.FetchBlockListItems (owner x w) (store w) = Ok blItms ->
  routed (events (unblock x iq elem w)) =
  flat_map (fun j => map (availableOf x w) (sessionsOf j w))
           (filter (fun j => isJIDInBlockList j blItms && isSubscribedFrom j ris) jds).
Proof.
  intros Hitems Hjds Hris Hbl.
  destruct (unblock_after_reads x iq elem w jds ris blItms Hitems Hjds Hris Hbl)
    as [rest [Hev [Hr _]]].
  rewrite Hev, !routed_app, routed_reads.
  change (routed (?c :: rest)) with (routed [c] ++ routed rest).
  rewrite Hr. cbn [routed flat_map app]. rewrite app_nil_r, routed_available.
  unfold toRemove. rewrite filter_filter. reflexivity.
Qed.

(** X11: [block] and an unblock with items route their presences before
    they ask the storage to write: in the trace every routed presence
    precedes the write, and nothing is written before it.  So when that
    write fails the request is answered with internal-server-error and
    nothing is pushed or reloaded, yet the presences have been routed. *)
Theorem presences_precede_the_write x iq elem w jds ris blItms err :
  requestItems elem <> [] ->
  extractItemJIDs (requestItems elem) = Ok jds ->
  storage.FetchRosterItems (owner x w) (store w) = Ok ris ->
  storage.FetchBlockListItems (owner x w) (store w) = Ok blItms ->
  (filter (fun j => negb (isJIDInBlockList j blItms)) jds <> [] ->
   storage.failure (store w) storage.OpInsertOrUpdateBlockListItems = Some err ->
   exists pre call,
     events (block x iq elem w) =
       pre ++ [StorageCall call; LogError err;
               SendElement (stm x) (xml.InternalServerError iq)]
     /\ writes pre = [] /\ sent pre = []
     /\ routed pre = routed (events (block x iq elem w)))
  /\ (storage.failure (store w) storage.OpDeleteBlockListItems = Some err ->
      exists pre call,
        events (unblock x iq elem w) =
          pre ++ [StorageCall call; LogError err;
                  SendElement (stm x) (xml.InternalServerError iq)]
        /\ writes pre = [] /\ sent pre = []
        /\ routed pre = routed (events (unblock x iq elem w))).
Proof.
  intros Hitems Hjds Hris Hbl. split.
  - intros Hnew Hfail.
    rewrite block_run. unfold block_closed. fold (requestItems elem).
    destruct (requestItems elem) as [|item items]; [congruence|].
    cbn [length Nat.eqb]. rewrite Hjds, Hris, Hbl. cbv zeta. fold (toAdd blItms jds) in Hnew.
    destruct (toAdd blItms jds) as [|j adds] eqn:Hadds; [congruence|].
    cbn [map length Nat.ltb Nat.leb]. rewrite Hfail. cbn [events].
    exists (reads x w ++ broadcasts x ris xml.UnavailableType w (j :: adds)).
    eexists. split; [reflexivity|].
    rewrite writes_app, sent_app, writes_reads, writes_broadcasts, sent_reads, sent_broadcasts.
    repeat split; try reflexivity.
    rewrite (routed_app (_ ++ _)). cbn [routed flat_map app]. rewrite app_nil_r. reflexivity.
  - intros Hfail.
    rewrite unblock_run. unfold unblock_closed. fold (requestItems elem).
    rewrite Hris, Hbl. cbv zeta.
    destruct (requestItems elem) as [|item items]; [congruence|].
    cbn [length Nat.eqb]. rewrite Hjds, Hfail. cbn [events].
    exists (reads x w ++ broadcasts x ris xml.AvailableType w (toRemove blItms jds)).
    eexists. split; [reflexivity|].
    rewrite writes_app, sent_app, writes_reads, writes_broadcasts, sent_reads, sent_broadcasts.
    repeat split; try reflexivity.
    rewrite (routed_app (_ ++ _)). cbn [routed flat_map app]. rewrite app_nil_r. reflexivity.
Qed.

(** X12: a clear-all unblock deletes first: the deletion of the owner's
    block list is the only write and nothing is routed before it; when it
    fails, no presence is routed at all and the only stanza sent is the
    internal-server-error reply; when it succeeds and the stored JIDs all
    parse, the presences routed are exactly, in the order of the block list
    read, one available presence for each live session of each stored
    address the roster makes visible, its sender the JID of that session,
    its recipient the owner's bare JID and its payload the one that
    session last sent. *)
Theorem clear_all_deletes_first x iq elem w ris blItms :
  requestItems elem = [] ->
  storage.FetchRosterItems (owner x w) (store w) = Ok ris ->
  storage.FetchBlockListItems (owner x w) (store w) = Ok blItms ->
  (exists post,
      events (unblock x iq elem w) =
        reads x w ++ StorageCall (storage.CallDeleteBlockList (owner x w)) :: post
      /\ writes post = [])
  /\ (forall err,
        storage.failure (store w) storage.OpDeleteBlockList = Some err ->
        routed (events (unblock x iq elem w)) = []
        /\ sent (events (unblock x iq elem w)) = [(stm x, xml.InternalServerError iq)])
  /\ (storage.failure (store w) storage.OpDeleteBlockList = None ->
      Forall storedParses blItms ->
      routed (events (unblock x iq elem w)) =
      flat_map (fun j => map (availableOf x w) (sessionsOf j w))
               (filter (fun j => isSubscribedFrom j ris) (map storedJID blItms))).
Proof.
  intros Hitems Hris Hbl.
  rewrite unblock_run. unfold unblock_closed. fold (requestItems elem).
  rewrite Hris, Hbl, Hitems. cbn [length Nat.eqb]. cbv zeta.
  destruct (storage.failure _ _) as [err|]; cbn [events].
  - split; [|split].
    + eexists. split; [reflexivity|]. reflexivity.
    + intros err' _. split; reflexivity.
    + intros H _. discriminate H.
  - split; [|split].
    + eexists. split; [reflexivity|].
      rewrite writes_app, writes_broadcasts, writes_doneEvents. reflexivity.
    + intros err H. discriminate H.
    + intros _ _. rewrite !routed_app, routed_reads, routed_doneEvents, app_nil_r.
      cbn [routed flat_map app]. apply routed_available.
Qed.

(** *** Fetching the list, then a request from another session *)

Lemma StreamJID_flagged s w r :
  c2s.StreamJID (c2s.object (manager (flagged s w)) r) = c2s.StreamJID (c2s.object (manager w) r).
Proof. unfold flagged. cbn. destruct (Nat.eqb r s); reflexivity. Qed.

Lemma sessionsOf_flagged s w jid : sessionsOf jid (flagged s w) = sessionsOf jid w.
Proof.
  unfold sessionsOf, c2s.StreamsMatchingJID.
  change (c2s.registered (manager (flagged s w))) with (c2s.registered (manager w)).
  apply filter_ext. intros r. rewrite StreamJID_flagged. reflexivity.
Qed.

Lemma ownerBareJID_flagged s x w : ownerBareJID x (flagged s w) = ownerBareJID x w.
Proof. unfold ownerBareJID. rewrite StreamJID_flagged. reflexivity. Qed.

(** X13: a session that has fetched the block list is pushed to from then
    on: after [sendBlockList] has answered a session of the owner with the
    list, a successful block or unblock issued by another session of the
    same owner sends that session exactly one stanza, the push of the
    request's element, whether or not its flag was set before. *)
Theorem fetch_then_pushed xa xb iqa iq elem w blItms :
  NoDup (c2s.registered (manager w)) ->
  stm xa <> stm xb ->
  In (stm xa) (sessionsOf (ownerBareJID xb w) w) ->
  storage.FetchBlockListItems (owner xa w) (store w) = Ok blItms ->
  (succeeded xb iq (block xb iq elem (world (sendBlockList xa iqa w))) ->
   exists id,
     sentTo (stm xa) (events (block xb iq elem (world (sendBlockList xa iqa w))))
     = [pushStanza id elem])
  /\ (succeeded xb iq (unblock xb iq elem (world (sendBlockList xa iqa w))) ->
      exists id,
        sentTo (stm xa) (events (unblock xb iq elem (world (sendBlockList xa iqa w))))
        = [pushStanza id elem]).
Proof.
  intros Hnd Hneq Hs Hfetch.
  assert (Hw : world (sendBlockList xa iqa w) = flagged (stm xa) w).
  { rewrite sendBlockList_run. unfold sendBlockList_closed. rewrite Hfetch. reflexivity. }
  rewrite Hw.
  assert (Hs' : In (stm xa) (sessionsOf (ownerBareJID xb (flagged (stm xa) w))
                                        (flagged (stm xa) w))).
  { rewrite ownerBareJID_flagged, sessionsOf_flagged. exact Hs. }
  assert (Hflag : pushEnabled (flagged (stm xa) w) (stm xa) = true)
    by apply pushEnabled_flagged.
  assert (Hno : Nat.eqb (stm xb) (stm xa) = false)
    by (apply Nat.eqb_neq; congruence).
  split; intros Hok.
  - destruct (block_succeeded_inv xb iq elem _ Hok) as [mid [Hev Hmid]].
    destruct (sentTo_on_success xb iq elem (flagged (stm xa) w) (stm xa) _ mid Hnd Hs' Hev Hmid)
      as [id Hsent].
    exists id. rewrite Hsent, Hflag, Hno. reflexivity.
  - destruct (unblock_succeeded_inv xb iq elem _ Hok) as [mid [Hev Hmid]].
    destruct (sentTo_on_success xb iq elem (flagged (stm xa) w) (stm xa) _ mid Hnd Hs' Hev Hmid)
      as [id Hsent].
    exists id. rewrite Hsent, Hflag, Hno. reflexivity.
Qed.

(** *** Block, then unblock *)

Lemma block_store_ok u elem st jds :
  extractItemJIDs (requestItems elem) = Ok jds ->
  (forall op, storage.failure st op = None) ->
  block_store u elem st =
  storage.setBlockListItems
    (storage.insertOrUpdateAll
       (map (fun j => mkBlockListItem u (JID_String j))
            (toAdd (storage.itemsOf u (storage.blockListItems st)) jds))
       (storage.blockListItems st))
    st.
Proof.
  intros Hjds Hf. unfold block_store, storage.FetchRosterItems, storage.FetchBlockListItems,
    storage.InsertOrUpdateBlockListItems.
  rewrite Hjds, !Hf. reflexivity.
Qed.

Lemma filter_all {A : Type} (p : A -> bool) (l : list A) :
  filter (fun a => negb (p a)) l = [] -> filter p l = l.
Proof.
  induction l as [|a l IH]; [reflexivity|].
  cbn [filter]. destruct (p a); cbn [negb]; [|discriminate].
  intros H. rewrite IH by exact H. reflexivity.
Qed.

Lemma deleted_not_blocked u (jds : list JID) tbl j :
  In j jds ->
  isJIDInBlockList j
    (storage.itemsOf u
       (storage.deleteItems (map (fun j => mkBlockListItem u (JID_String j)) jds) tbl))
  = false.
Proof.
  intros Hj.
  destruct (isJIDInBlockList j _) eqn:Hin; [|reflexivity]. exfalso.
  apply isJIDInBlockList_true in Hin. destruct Hin as [b [Hb Hjid]].
  apply In_itemsOf in Hb. destruct Hb as [Hb Hu].
  unfold storage.deleteItems in Hb. apply filter_In in Hb. destruct Hb as [_ Hkeep].
  apply negb_true_iff in Hkeep.
  assert (Hex : existsb (sameItem b)
                        (map (fun j => mkBlockListItem u (JID_String j)) jds) = true).
  { apply existsb_sameItem. destruct b as [bu bj]. cbn in Hu, Hjid. subst.
    apply (in_map (fun j => mkBlockListItem u (JID_String j))). exact Hj. }
  congruence.
Qed.

(** X14: block, then unblock.  With a storage that keeps what it is given
    (insert-or-update and delete as modelled) and no failing call, after a
    block request for some addresses, an unblock request for the same
    addresses finds every one of them blocked: it asks for the deletion of
    an item for each, is answered with the result IQ, routes for every live
    session of each of them that the roster makes visible the available
    presence of that session (its sender the JID of the session, its
    recipient the owner's bare JID, its payload the one the session last
    sent), and leaves none of them in the owner's block set. *)
Theorem block_then_unblock x iq iq' elem elem' w jds :
  requestItems elem' <> [] ->
  extractItemJIDs (requestItems elem) = Ok jds ->
  extractItemJIDs (requestItems elem') = Ok jds ->
  (forall op, storage.failure (store w) op = None) ->
  succeeded x iq' (unblock x iq' elem' (world (block x iq elem w)))
  /\ writes (events (unblock x iq' elem' (world (block x iq elem w))))
     = [storage.CallDeleteBlockListItems
          (map (fun j => mkBlockListItem (owner x w) (JID_String j)) jds)]
  /\ routed (events (unblock x iq' elem' (world (block x iq elem w))))
     = flat_map (fun j => map (availableOf x w) (sessionsOf j w))
         (filter (fun j => isSubscribedFrom j
                             (storage.rosterOf (owner x w) (storage.rosterItems (store w))))
                 jds)
  /\ forall j, In j jds ->
       isJIDInBlockList j (blockSet x (world (unblock x iq' elem' (world (block x iq elem w)))))
       = false.
Proof.
  intros Hitems Hjds Hjds' Hf.
  set (w1 := world (block x iq elem w)).
  assert (Hm : manager w1 = manager w) by apply manager_of_block.
  assert (Ho : owner x w1 = owner x w) by (unfold owner; rewrite Hm; reflexivity).
  set (u := owner x w) in *.
  set (tbl := storage.blockListItems (store w)).
  set (tbl1 := storage.insertOrUpdateAll
                 (map (fun j => mkBlockListItem u (JID_String j))
                      (toAdd (storage.itemsOf u tbl) jds)) tbl).
  assert (Hst : store w1 = storage.setBlockListItems tbl1 (store w)).
  { unfold w1. rewrite store_of_block. apply block_store_ok; assumption. }
  assert (Hris : storage.FetchRosterItems (owner x w1) (store w1)
                 = Ok (storage.rosterOf u (storage.rosterItems (store w)))).
  { rewrite Ho, Hst. unfold storage.FetchRosterItems. cbn. rewrite Hf. reflexivity. }
  assert (Hbl : storage.FetchBlockListItems (owner x w1) (store w1)
                = Ok (storage.itemsOf u tbl1)).
  { rewrite Ho, Hst. unfold storage.FetchBlockListItems. cbn. rewrite Hf. reflexivity. }
  assert (Hdel : storage.failure (store w1) storage.OpDeleteBlockListItems = None).
  { rewrite Hst. cbn. apply Hf. }
  assert (Hall : toRemove (storage.itemsOf u tbl1) jds = jds).
  { unfold toRemove. apply filter_all. exact (all_blocked_after u tbl jds). }
  assert (Hw : writes (events (unblock x iq' elem' w1))
               = [storage.CallDeleteBlockListItems
                    (map (fun j => mkBlockListItem u (JID_String j)) jds)]
               /\ routed (events (unblock x iq' elem' w1))
                  = flat_map (fun j => map (availableOf x w1) (sessionsOf j w1))
                      (filter (fun j => isSubscribedFrom j
                                          (storage.rosterOf u (storage.rosterItems (store w))))
                              jds)).
  { destruct (unblock_after_reads x iq' elem' w1 jds _ _ Hitems Hjds' Hris Hbl)
      as [rest [Hev [Hr Hwr]]].
    rewrite Hall in Hev. rewrite Hev. split.
    - rewrite !writes_app, writes_reads, writes_broadcasts.
      change (writes (?c :: rest)) with (writes [c] ++ writes rest).
      rewrite Hwr. unfold itemFor. rewrite Ho. reflexivity.
    - rewrite !routed_app, routed_reads.
      change (routed (?c :: rest)) with (routed [c] ++ routed rest).
      rewrite Hr. cbn [routed flat_map app]. rewrite app_nil_r. apply routed_available. }
  destruct Hw as [Hwrites Hrouted].
  assert (Hrun : unblock x iq' elem' w1 =
                 mkOutcome tt
                   (advance (length (pushTargets x w1))
                      (written (storage.deleteItems
                                  (map (itemFor x w1) (toRemove (storage.itemsOf u tbl1) jds))
                                  (storage.blockListItems (store w1))) w1))
                   ((reads x w1
                     ++ broadcasts x (storage.rosterOf u (storage.rosterItems (store w)))
                          xml.AvailableType w1 (toRemove (storage.itemsOf u tbl1) jds))
                    ++ [StorageCall (storage.CallDeleteBlockListItems
                                       (map (itemFor x w1)
                                            (toRemove (storage.itemsOf u tbl1) jds)))]
                    ++ doneEvents x iq' elem' w1)).
  { rewrite unblock_run. unfold unblock_closed. fold (requestItems elem').
    rewrite Hris, Hbl. cbv zeta.
    destruct (requestItems elem') as [|item items]; [congruence|].
    cbn [length Nat.eqb]. rewrite Hjds', Hdel. reflexivity. }
  split; [|split; [exact Hwrites|split]].
  - unfold succeeded. rewrite Hrun. cbn [events].
    rewrite sentTo_skip
      by (rewrite sent_app, sent_reads, sent_broadcasts; reflexivity).
    rewrite sentTo_skip by reflexivity.
    rewrite sentTo_doneEvents, Nat.eqb_refl. left. reflexivity.
  - rewrite Hrouted. unfold availableOf, jidOf, ownerBareJID, lastPayload, sessionsOf.
    rewrite Hm. reflexivity.
  - intros j Hj. rewrite Hrun. cbn [world]. rewrite blockSet_after_write, Hall, Ho.
    unfold itemFor. rewrite Ho. apply deleted_not_blocked. exact Hj.
Qed.

(** *** What the handler never does *)

(** The calls to the storage, in order, and the user names a call touches. *)
Definition calls (evs : list Event) : list storage.Call :=
  flat_map (fun ev => match ev with StorageCall c => [c] | _ => [] end) evs.

Definition callUsers (c : storage.Call) : list string :=
  match c with
  | storage.CallFetchRosterItems u
  | storage.CallFetchBlockListItems u
  | storage.CallDeleteBlockList u => [u]
  | storage.CallInsertOrUpdateBlockListItems items
  | storage.CallDeleteBlockListItems items => map bli_Username items
  end.

Lemma calls_app evs1 evs2 : calls (evs1 ++ evs2) = calls evs1 ++ calls evs2.
Proof. apply flat_map_app. Qed.

Lemma calls_broadcasts x ris presenceType w l : calls (broadcasts x ris presenceType w l) = [].
Proof.
  unfold broadcasts. induction l as [|j l IH]; [reflexivity|].
  cbn [flat_map]. rewrite calls_app, IH, app_nil_r.
  unfold broadcastEvents. cbn. destruct (isSubscribedFrom j ris); [|reflexivity].
  induction (sessionsOf j w) as [|s ss IHs]; [reflexivity|exact IHs].
Qed.

Lemma calls_pushEvents elem l n : calls (pushEvents elem l n) = [].
Proof. revert n. induction l as [|s l IH]; intros n; [reflexivity|apply IH]. Qed.

Lemma calls_doneEvents x iq elem w : calls (doneEvents x iq elem w) = [].
Proof.
  unfold doneEvents. cbn [calls flat_map app]. fold (calls).
  rewrite calls_app, calls_pushEvents. reflexivity.
Qed.

Lemma calls_failed x reply err : calls (failed x reply err) = [].
Proof. reflexivity. Qed.

Lemma calls_reads x w :
  calls (reads x w) = [storage.CallFetchRosterItems (owner x w);
                       storage.CallFetchBlockListItems (owner x w)].
Proof. reflexivity. Qed.

Ltac split_closed_form :=
  repeat match goal with
         | |- context [if ?b then _ else _] => destruct b
         | |- context [match ?r with Ok _ => _ | Err _ => _ end] => destruct r
         | |- context [match ?r with Some _ => _ | None => _ end] => destruct r
         end.

(** The calls [block] makes to the storage: the two reads, then at most
    one insertion of items made by [itemFor]. *)
Lemma calls_of_block x iq elem w :
  exists l tail,
    calls (events (block x iq elem w)) = l ++ tail
    /\ (l = [] \/ l = [storage.CallFetchRosterItems (owner x w)] \/ l = calls (reads x w))
    /\ (tail = []
        \/ exists jds, tail = [storage.CallInsertOrUpdateBlockListItems (map (itemFor x w) jds)]).
Proof.
  rewrite block_run. unfold block_closed. split_closed_form; cbn [events];
    rewrite ?calls_app, ?calls_broadcasts, ?calls_doneEvents, ?calls_failed, ?app_nil_r;
    cbn [app].
  all: try (exists [], []; split; [reflexivity|]; split; [left; reflexivity|left; reflexivity]).
  all: try (exists [storage.CallFetchRosterItems (owner x w)], [];
            split; [reflexivity|]; split; [right; left; reflexivity|left; reflexivity]).
  all: try (exists (calls (reads x w)), [];
            split; [reflexivity|]; split; [right; right; reflexivity|left; reflexivity]).
  all: eexists (calls (reads x w)), _;
    (split; [reflexivity|]); (split; [right; right; reflexivity|]);
    right; eexists; reflexivity.
Qed.

Lemma calls_of_unblock x iq elem w :
  exists l tail,
    calls (events (unblock x iq elem w)) = l ++ tail
    /\ (l = [storage.CallFetchRosterItems (owner x w)] \/ l = calls (reads x w))
    /\ (tail = []
        \/ tail = [storage.CallDeleteBlockList (owner x w)]
        \/ exists jds, tail = [storage.CallDeleteBlockListItems (map (itemFor x w) jds)]).
Proof.
  rewrite unblock_run. unfold unblock_closed. split_closed_form; cbn [events];
    rewrite ?calls_app, ?calls_broadcasts, ?calls_doneEvents, ?calls_failed, ?app_nil_r;
    cbn [app].
  all: try (exists [storage.CallFetchRosterItems (owner x w)], [];
            split; [reflexivity|]; split; [left; reflexivity|left; reflexivity]).
  all: try (exists (calls (reads x w)), [];
            split; [reflexivity|]; split; [right; reflexivity|left; reflexivity]).
  all: try (exists (calls (reads x w)), [storage.CallDeleteBlockList (owner x w)];
            split; [reflexivity|]; split; [right; reflexivity|right; left; reflexivity]).
  all: eexists (calls (reads x w)), _;
    (split; [reflexivity|]); (split; [right; reflexivity|]);
    right; right; eexists; reflexivity.
Qed.

Lemma callUsers_itemFor x w (jds : list JID) u :
  In u (map bli_Username (map (itemFor x w) jds)) -> u = owner x w.
Proof.
  rewrite map_map. cbn. intros Hin. apply in_map_iff in Hin.
  destruct Hin as [j [<- _]]. reflexivity.
Qed.

(** X15: the handler touches the storage only under the user name of the
    stream it serves: every read it makes is for that user, every item it
    asks to insert or to delete is filed under that user, and the only
    block list it asks to delete whole is that user's. *)
Theorem storage_calls_are_the_owners x iq elem w c u :
  In c (calls (events (sendBlockList x iq w)))
  \/ In c (calls (events (block x iq elem w)))
  \/ In c (calls (events (unblock x iq elem w))) ->
  In u (callUsers c) ->
  u = owner x w.
Proof.
  intros [Hc|[Hc|Hc]] Hu.
  - rewrite sendBlockList_run in Hc. unfold sendBlockList_closed in Hc.
    destruct (storage.FetchBlockListItems _ _); cbn in Hc;
      destruct Hc as [<-|[]]; destruct Hu as [<-|[]]; reflexivity.
  - destruct (calls_of_block x iq elem w) as [l [tail [Heq [Hl Ht]]]].
    rewrite Heq in Hc. apply in_app_or in Hc. destruct Hc as [Hc|Hc].
    + destruct Hl as [->|[->| ->]]; cbn in Hc;
        repeat (destruct Hc as [<-|Hc]; [destruct Hu as [<-|[]]; reflexivity|]);
        destruct Hc.
    + destruct Ht as [->|[jds ->]]; [destruct Hc|].
      destruct Hc as [<-|[]]. exact (callUsers_itemFor x w jds u Hu).
  - destruct (calls_of_unblock x iq elem w) as [l [tail [Heq [Hl Ht]]]].
    rewrite Heq in Hc. apply in_app_or in Hc. destruct Hc as [Hc|Hc].
    + destruct Hl as [->| ->]; cbn in Hc;
        repeat (destruct Hc as [<-|Hc]; [destruct Hu as [<-|[]]; reflexivity|]);
        destruct Hc.
    + destruct Ht as [->|[->|[jds ->]]]; [destruct Hc| |].
      * destruct Hc as [<-|[]]. destruct Hu as [<-|[]]. reflexivity.
      * destruct Hc as [<-|[]]. exact (callUsers_itemFor x w jds u Hu).
Qed.

Lemma writes_of_calls evs : writes evs = filter storage.isWrite (calls evs).
Proof.
  unfold writes, calls. induction evs as [|ev evs IH]; [reflexivity|].
  cbn [flat_map]. rewrite filter_app, <- IH. f_equal.
  destruct ev as [e|c|j|s st|p|u]; reflexivity.
Qed.

(** X16: a request asks the storage for at most one write, and of its own
    kind: [sendBlockList] asks for none, [block] for nothing but an
    insertion, [unblock] for nothing but a deletion (of listed items or of
    the owner's whole list). *)
Theorem one_write_of_its_kind x iq elem w :
  writes (events (sendBlockList x iq w)) = []
  /\ (writes (events (block x iq elem w)) = []
      \/ exists items,
           writes (events (block x iq elem w))
           = [storage.CallInsertOrUpdateBlockListItems items])
  /\ (writes (events (unblock x iq elem w)) = []
      \/ writes (events (unblock x iq elem w)) = [storage.CallDeleteBlockList (owner x w)]
      \/ exists items,
           writes (events (unblock x iq elem w))
           = [storage.CallDeleteBlockListItems items]).
Proof.
  split; [|split].
  - rewrite sendBlockList_run. unfold sendBlockList_closed.
    destruct (storage.FetchBlockListItems _ _); reflexivity.
  - rewrite writes_of_calls.
    destruct (calls_of_block x iq elem w) as [l [tail [-> [Hl Ht]]]].
    rewrite filter_app.
    assert (Hnil : filter storage.isWrite l = [])
      by (destruct Hl as [->|[->| ->]]; reflexivity).
    rewrite Hnil. destruct Ht as [->|[jds ->]]; [left; reflexivity|].
    right. eexists. reflexivity.
  - rewrite writes_of_calls.
    destruct (calls_of_unblock x iq elem w) as [l [tail [-> [Hl Ht]]]].
    rewrite filter_app.
    assert (Hnil : filter storage.isWrite l = [])
      by (destruct Hl as [->| ->]; reflexivity).
    rewrite Hnil. destruct Ht as [->|[->|[jds ->]]].
    + left. reflexivity.
    + right. left. reflexivity.
    + right. right. eexists. reflexivity.
Qed.

(** The presences of a run of broadcasts are those [routedPresence] builds
    for registered streams. *)
Lemma routed_broadcasts_shape x ris presenceType w l p :
  In p (routed (broadcasts x ris presenceType w l)) ->
  exists s, In s (c2s.registered (manager w)) /\ p = routedPresence x presenceType w s.
Proof.
  rewrite routed_broadcasts_exact. intros Hin. apply in_flat_map in Hin.
  destruct Hin as [j [_ Hp]]. apply in_map_iff in Hp. destruct Hp as [s [<- Hs]].
  exists s. split; [|reflexivity].
  unfold sessionsOf, c2s.StreamsMatchingJID in Hs. apply filter_In in Hs. tauto.
Qed.

Lemma routed_of_block x iq elem w :
  routed (events (block x iq elem w)) = []
  \/ exists ris l,
       routed (events (block x iq elem w))
       = routed (broadcasts x ris xml.UnavailableType w l).
Proof.
  rewrite block_run. unfold block_closed. split_closed_form; cbn [events];
    try (left; reflexivity); right; eexists _, _;
    rewrite !routed_app, routed_reads, ?routed_doneEvents, ?app_nil_r;
    cbn [routed flat_map app]; rewrite ?app_nil_r; reflexivity.
Qed.

Lemma routed_of_unblock x iq elem w :
  routed (events (unblock x iq elem w)) = []
  \/ exists ris l,
       routed (events (unblock x iq elem w))
       = routed (broadcasts x ris xml.AvailableType w l).
Proof.
  rewrite unblock_run. unfold unblock_closed. split_closed_form; cbn [events];
    try (left; reflexivity); right; eexists _, _;
    rewrite !routed_app, routed_reads, ?routed_doneEvents, ?app_nil_r;
    cbn [routed flat_map app]; rewrite ?app_nil_r; reflexivity.
Qed.

(** X17: whatever the request and the storage, every presence [block]
    routes is an unavailable presence with no payload, and every presence
    [unblock] routes is an available presence carrying the payload of the
    last presence of the stream it is built for; each has the JID of a
    registered stream as its sender and the bare JID of the stream the
    handler serves as its recipient; [sendBlockList] routes none. *)
Theorem routed_presences_are_well_formed x iq elem w :
  routed (events (sendBlockList x iq w)) = []
  /\ (forall p, In p (routed (events (block x iq elem w))) ->
        xml.Presence_Type p = xml.UnavailableType
        /\ xml.Presence_Elements p = []
        /\ xml.Presence_To p = ownerBareJID x w
        /\ exists s, In s (c2s.registered (manager w)) /\ xml.Presence_From p = jidOf w s)
  /\ (forall p, In p (routed (events (unblock x iq elem w))) ->
        xml.Presence_Type p = xml.AvailableType
        /\ xml.Presence_To p = ownerBareJID x w
        /\ exists s, In s (c2s.registered (manager w))
                     /\ xml.Presence_From p = jidOf w s
                     /\ xml.Presence_Elements p = lastPayload w s).
Proof.
  split; [|split].
  - rewrite sendBlockList_run. unfold sendBlockList_closed.
    destruct (storage.FetchBlockListItems _ _); reflexivity.
  - intros p Hp. destruct (routed_of_block x iq elem w) as [H|[ris [l H]]];
      rewrite H in Hp; [destruct Hp|].
    apply routed_broadcasts_shape in Hp. destruct Hp as [s [Hs ->]].
    rewrite routedPresence_unavailable. cbn. repeat split. exists s. split; [exact Hs|reflexivity].
  - intros p Hp. destruct (routed_of_unblock x iq elem w) as [H|[ris [l H]]];
      rewrite H in Hp; [destruct Hp|].
    apply routed_broadcasts_shape in Hp. destruct Hp as [s [Hs ->]].
    rewrite routedPresence_available. cbn. repeat split. exists s. repeat split. exact Hs.
Qed.
End Handler.

Arguments mkOutcome {E A} value world events.
Arguments value {E A} o.
Arguments world {E A} o.
Arguments events {E A} o.

(** ** A test double, and the properties at concrete requests

    Stand-ins for the collaborators.  A JID pointer is nil or the JID a
    string stands for.  A string that ends in an at-sign (a JID with an
    empty domain) never parses; a string with a space in it does not parse
    unless [skipStringPrep] is set, which skips that validation.  The bare
    JID is what precedes the first slash; a looked-up bare JID matches
    every stream of that bare JID and a full one the stream bound to it. *)
Module Double.

Inductive jid : Type :=
| Nil
| J (s : string).

Coercion J : string >-> jid.

Definition text (j : jid) : string :=
  match j with
  | Nil => EmptyString
  | J s => s
  end.

Definition bareOf (s : string) : string :=
  match index 0 "/" s with
  | Some n => substring 0 n s
  | None => s
  end.

Definition bare (j : jid) : jid :=
  match j with
  | Nil => Nil
  | J s => J (bareOf s)
  end.

Definition emptyDomain (s : string) : bool :=
  String.eqb (substring (String.length s - 1) 1 s) "@".

Definition hasSpace (s : string) : bool :=
  match index 0 " " s with
  | Some _ => true
  | None => false
  end.

Definition parse (s : string) (skipStringPrep : bool) : jid * option error :=
  if emptyDomain s then (Nil, Some "jid: empty domain")
  else if negb skipStringPrep && hasSpace s then (Nil, Some "jid: malformed")
  else (J s, None).

Lemma parse_nil (s : string) (skipStringPrep : bool) (err : error) :
  snd (parse s skipStringPrep) = Some err -> fst (parse s skipStringPrep) = Nil.
Proof.
  unfold parse. destruct (emptyDomain s); [reflexivity|].
  destruct (negb skipStringPrep && hasSpace s); [reflexivity|discriminate].
Qed.

Definition matches (q j : jid) : bool :=
  match q, j with
  | J q, J j =>
      String.eqb (bareOf q) (bareOf j) && (String.eqb q (bareOf q) || String.eqb q j)
  | _, _ => false
  end.

Definition uuid (n : nat) : string := String (Ascii.ascii_of_nat (97 + n)) EmptyString.

#[export] Instance externals : Externals := {|
  JID := jid;
  nilJID := Nil;
  NewJIDString := parse;
  NewJIDString_nil := parse_nil;
  JID_String := text;
  ToBareJID := bare;
  JIDMatches := matches;
  uuid_New := uuid
|}.

Definition item (jid : string) : xml.XElement := xml.Element "item" [("jid", jid)] [].

Definition blockElem (jids : list string) : xml.XElement :=
  xml.Element "block" [("xmlns", "urn:xmpp:blocking")] (map item jids).

Definition unblockElem (jids : list string) : xml.XElement :=
  xml.Element "unblock" [("xmlns", "urn:xmpp:blocking")] (map item jids).

Definition status (txt : string) : list xml.XElement :=
  [xml.Element "status" [] [xml.Element txt [] []]].

Definition session (u j : string) (flag : bool) (payload : option (list xml.XElement))
  : c2s.StreamState :=
  c2s.mkStreamState u j
    (if flag then [("xep_191:requested", true)] else [])
    (option_map (xml.mkPresence (J j) (bare (J j)) "available") payload).

(** Romeo has three sessions, two of which fetched the block list; Juliet
    has two. *)
Definition romeo : string := "romeo@montague.lit".
Definition juliet : string := "juliet@capulet.lit".

Definition mgr : c2s.Manager :=
  c2s.mkManager
    (fun r =>
       match r with
       | 0 => session "romeo" "romeo@montague.lit/orchard" true (Some (status "wooing"))
       | 1 => session "romeo" "romeo@montague.lit/garden" true None
       | 2 => session "romeo" "romeo@montague.lit/street" false None
       | 3 => session "juliet" "juliet@capulet.lit/balcony" false (Some (status "sighing"))
       | _ => session "juliet" "juliet@capulet.lit/chamber" false None
       end)
    [0; 1; 2; 3; 4].

Definition noFailure : storage.Op -> option error := fun _ => None.

Definition rosterDown : storage.Op -> option error :=
  fun op => match op with storage.OpFetchRosterItems => Some "roster: down" | _ => None end.

Definition world_of (blocked : list string) (subscription : string)
    (failure : storage.Op -> option error) : World :=
  mkWorld
    (storage.mkStorage (map (model.mkBlockListItem "romeo") blocked)
                       [model.mkRosterItem "romeo" juliet subscription]
                       failure)
    mgr 0.

(** The handler of Romeo's session in the orchard, and a set request. *)
Definition x0 : XEPBlockingCommand := mkXEPBlockingCommand 0.

Definition iqSet (e : xml.XElement) : xml.IQ := xml.mkIQ "q1" "set" [e].

Definition iqGet : xml.IQ :=
  xml.mkIQ "q0" "get" [xml.Element "blocklist" [("xmlns", "urn:xmpp:blocking")] []].

Lemma registry_lists_once : NoDup (c2s.registered mgr).
Proof.
  repeat (constructor; [cbn; intuition discriminate|]). constructor.
Qed.

End Double.

Import Double.

(** Romeo, subscribed [both] with Juliet, blocks her: the unavailable
    presence of each of her two sessions is routed to Romeo's bare JID
    before the write, then come the reply, the pushes to Romeo's sessions
    that fetched the list, and the reload. *)
Example block_scenario :
  events (block x0 (iqSet (blockElem [juliet])) (blockElem [juliet])
                (world_of [] "both" noFailure)) =
  [StorageCall (storage.CallFetchRosterItems "romeo");
   StorageCall (storage.CallFetchBlockListItems "romeo");
   LookupStreams juliet;
   Route (xml.mkPresence "juliet@capulet.lit/balcony" romeo "unavailable" []);
   Route (xml.mkPresence "juliet@capulet.lit/chamber" romeo "unavailable" []);
   StorageCall (storage.CallInsertOrUpdateBlockListItems
                  [model.mkBlockListItem "romeo" juliet]);
   SendElement 0 (xml.IQStanza (xml.mkIQ "q1" "result" []));
   LookupStreams romeo;
   SendElement 0 (xml.IQStanza (xml.mkIQ "a" "set" [blockElem [juliet]]));
   SendElement 1 (xml.IQStanza (xml.mkIQ "b" "set" [blockElem [juliet]]));
   ReloadBlockList "romeo"].
Proof. vm_compute. reflexivity. Qed.

(** A request that lists a new address twice broadcasts for it twice and
    hands both items to the storage, whose insert-or-update keeps one. *)
Example block_twice_in_one_request :
  let o := block x0 (iqSet (blockElem [juliet; juliet])) (blockElem [juliet; juliet])
                 (world_of [] "both" noFailure) in
  writes (events o) =
    [storage.CallInsertOrUpdateBlockListItems
       [model.mkBlockListItem "romeo" juliet; model.mkBlockListItem "romeo" juliet]]
  /\ length (routed (events o)) = 4
  /\ storage.blockListItems (store (world o)) = [model.mkBlockListItem "romeo" juliet].
Proof. vm_compute. repeat split; reflexivity. Qed.




(** C2 at two requests: after Romeo's block, his session in the garden,
    which fetched the list, is sent the push and nothing else; after his
    unblock, his session in the street, which did not, is sent nothing. *)
Lemma push_reaches_other_sessions_witness :
  (exists id,
      sentTo 1 (events (block x0 (iqSet (blockElem [juliet])) (blockElem [juliet])
                              (world_of [] "both" noFailure)))
      = [pushStanza id (blockElem [juliet])])
  /\ sentTo 2 (events (unblock x0 (iqSet (unblockElem [])) (unblockElem [])
                               (world_of [juliet] "both" noFailure))) = [].
Proof.
  split.
  - refine (proj1 (push_reaches_other_sessions x0 (iqSet (blockElem [juliet]))
                     (blockElem [juliet]) (world_of [] "both" noFailure) 1 _
                     registry_lists_once _ (or_introl eq_refl) _) eq_refl _).
    + vm_compute. right. left. reflexivity.
    + vm_compute. left. reflexivity.
    + discriminate.
  - refine (proj1 (proj2 (push_reaches_other_sessions x0 (iqSet (unblockElem []))
                            (unblockElem []) (world_of [juliet] "both" noFailure) 2 _
                            registry_lists_once _ (or_intror eq_refl) _)) eq_refl _).
    + vm_compute. right. right. left. reflexivity.
    + vm_compute. left. reflexivity.
    + discriminate.
Defined.

(** The stream that asked is pushed to as well: Romeo's session in the
    orchard fetched the list, blocks Juliet, and is sent the reply and the
    push. *)
Example requester_is_pushed_too :
  sentTo 0 (events (block x0 (iqSet (blockElem [juliet])) (blockElem [juliet])
                          (world_of [] "both" noFailure)))
  = [xml.IQStanza (xml.mkIQ "q1" "result" []); pushStanza "a" (blockElem [juliet])].
Proof. vm_compute. reflexivity. Qed.



(** Romeo clears his block list: the presence of Juliet's session on the
    balcony is routed to him with the payload that session last sent, the
    one of her session in the chamber with none, and Romeo's own payload is
    in neither. *)
Example clear_all_scenario :
  routed (events (unblock x0 (iqSet (unblockElem [])) (unblockElem [])
                          (world_of [juliet] "both" noFailure)))
  = [xml.mkPresence "juliet@capulet.lit/balcony" romeo "available" (status "sighing");
     xml.mkPresence "juliet@capulet.lit/chamber" romeo "available" []].
Proof. vm_compute. reflexivity. Qed.

(** C4 at a request: Romeo blocks Juliet a second time. *)
Lemma block_already_blocked_witness :
  succeeded x0 (iqSet (blockElem [juliet]))
            (block x0 (iqSet (blockElem [juliet])) (blockElem [juliet])
                   (world_of [juliet] "both" noFailure))
  /\ routed (events (block x0 (iqSet (blockElem [juliet])) (blockElem [juliet])
                           (world_of [juliet] "both" noFailure))) = []
  /\ store (world (block x0 (iqSet (blockElem [juliet])) (blockElem [juliet])
                         (world (block x0 (iqSet (blockElem [juliet])) (blockElem [juliet])
                                       (world_of [] "both" noFailure)))))
     = store (world (block x0 (iqSet (blockElem [juliet])) (blockElem [juliet])
                           (world_of [] "both" noFailure))).
Proof.
  destruct (block_already_blocked x0 (iqSet (blockElem [juliet])) (blockElem [juliet])
              (world_of [juliet] "both" noFailure)) as [_ [Hall _]].
  destruct (Hall [J juliet] [model.mkRosterItem "romeo" juliet "both"]
                 [model.mkBlockListItem "romeo" juliet]) as [Hok [Hr _]].
  - discriminate.
  - reflexivity.
  - reflexivity.
  - reflexivity.
  - intros j [<-|[]]. reflexivity.
  - split; [exact Hok|]. split; [exact Hr|].
    exact (proj2 (proj2 (block_already_blocked x0 (iqSet (blockElem [juliet]))
                           (blockElem [juliet]) (world_of [] "both" noFailure)))).
Defined.

Lemma juliet_hidden (sub : string) :
  sub = "none" \/ sub = "to" ->
  hidden juliet [model.mkRosterItem "romeo" juliet sub].
Proof.
  intros Hsub ri [<-|[]] _. exact Hsub.
Qed.

(** C5 at two requests: Romeo is subscribed [to] Juliet only; neither his
    block nor his unblock of her routes a presence. *)
Lemma hidden_address_gets_no_presence_witness :
  routed (events (block x0 (iqSet (blockElem [juliet])) (blockElem [juliet])
                        (world_of [] "to" noFailure))) = []
  /\ routed (events (unblock x0 (iqSet (unblockElem [juliet])) (unblockElem [juliet])
                             (world_of [juliet] "to" noFailure))) = [].
Proof.
  split.
  - refine (proj1 (proj2 (proj2 (hidden_address_gets_no_presence x0
                                   (iqSet (blockElem [juliet])) (blockElem [juliet])
                                   (world_of [] "to" noFailure)))
                     [model.mkRosterItem "romeo" juliet "to"] [J juliet] eq_refl eq_refl _)).
    intros j [<-|[]]. apply juliet_hidden. right. reflexivity.
  - refine (proj2 (proj2 (proj2 (hidden_address_gets_no_presence x0
                                   (iqSet (unblockElem [juliet])) (unblockElem [juliet])
                                   (world_of [juliet] "to" noFailure)))
                     [model.mkRosterItem "romeo" juliet "to"] [J juliet] eq_refl eq_refl _) _).
    + intros j [<-|[]]. apply juliet_hidden. right. reflexivity.
    + discriminate.
Defined.

(** C6 at a request: Romeo's session in the street, which had not fetched
    the list, fetches it. *)
Lemma list_fetch_sets_flag_witness :
  pushEnabled (world_of [juliet] "both" noFailure) 2 = false
  /\ pushEnabled (world (ProcessIQ (mkXEPBlockingCommand 2) iqGet
                                   (world_of [juliet] "both" noFailure))) 2 = true
  /\ store (world (ProcessIQ (mkXEPBlockingCommand 2) iqGet
                             (world_of [juliet] "both" noFailure)))
     = store (world_of [juliet] "both" noFailure).
Proof.
  destruct (list_fetch_sets_flag (mkXEPBlockingCommand 2) iqGet
              (world_of [juliet] "both" noFailure) eq_refl) as [Hstore [_ [Hok _]]].
  destruct (Hok [model.mkBlockListItem "romeo" juliet] eq_refl) as [Hflag _].
  split; [reflexivity|]. split; [exact Hflag|exact Hstore].
Defined.

(** C7 as it is written fails for unblock when the storage cannot be read:
    the roster is down, Romeo asks to unblock an address that does not parse
    and is answered internal-server-error, not jid-malformed. *)
Lemma malformed_always_rejected_fails :
  ~ malformed_always_rejected x0 (iqSet (unblockElem ["not a jid"]))
      (unblockElem ["not a jid"]) (world_of [juliet] "both" rosterDown).
Proof.
  intros H. destruct (H "jid: malformed" eq_refl) as [_ [Hsent _]].
  vm_compute in Hsent. discriminate Hsent.
Qed.

(** C7, as amended, at two requests with an address that does not parse,
    the roster being down. *)
Lemma malformed_address_rejected_witness :
  rejects_malformed (block x0 (iqSet (blockElem ["not a jid"])) (blockElem ["not a jid"])
                           (world_of [] "both" rosterDown))
                    x0 (iqSet (blockElem ["not a jid"]))
  /\ sent (events (unblock x0 (iqSet (unblockElem ["not a jid"]))
                           (unblockElem ["not a jid"]) (world_of [] "both" rosterDown)))
     = [(0, xml.InternalServerError (iqSet (unblockElem ["not a jid"])))]
  /\ rejects_malformed (unblock x0 (iqSet (unblockElem ["not a jid"]))
                                (unblockElem ["not a jid"]) (world_of [] "both" noFailure))
                       x0 (iqSet (unblockElem ["not a jid"])).
Proof.
  split; [|split].
  - exact (proj1 (proj2 (malformed_address_rejected x0 (iqSet (blockElem ["not a jid"]))
                           (blockElem ["not a jid"]) (world_of [] "both" rosterDown)
                           "jid: malformed" eq_refl))).
  - destruct (malformed_address_rejected x0 (iqSet (unblockElem ["not a jid"]))
                (unblockElem ["not a jid"]) (world_of [] "both" rosterDown)
                "jid: malformed" eq_refl) as [_ [_ [_ [_ [_ [_ [_ Hdown]]]]]]].
    apply (Hdown "roster: down"). left. reflexivity.
  - destruct (malformed_address_rejected x0 (iqSet (unblockElem ["not a jid"]))
                (unblockElem ["not a jid"]) (world_of [] "both" noFailure)
                "jid: malformed" eq_refl) as [_ [_ [_ [_ [_ [_ [Hup _]]]]]]].
    exact (Hup [model.mkRosterItem "romeo" juliet "both"] [] eq_refl eq_refl).
Defined.

(** C8 at two requests with no item. *)
Lemma empty_item_list_asymmetry_witness :
  sent (events (block x0 (iqSet (blockElem [])) (blockElem [])
                      (world_of [juliet] "both" noFailure)))
  = [(0, xml.BadRequestError (iqSet (blockElem [])))]
  /\ succeeded x0 (iqSet (unblockElem []))
               (unblock x0 (iqSet (unblockElem [])) (unblockElem [])
                        (world_of [juliet] "both" noFailure)).
Proof.
  split.
  - rewrite (proj1 (empty_item_list_asymmetry x0 (iqSet (blockElem [])) (blockElem [])
                      (world_of [juliet] "both" noFailure) eq_refl)).
    reflexivity.
  - exact (proj1 (proj2 (proj2 (empty_item_list_asymmetry x0 (iqSet (unblockElem []))
                                  (unblockElem []) (world_of [juliet] "both" noFailure)
                                  eq_refl))
                    [model.mkRosterItem "romeo" juliet "both"]
                    [model.mkBlockListItem "romeo" juliet] eq_refl eq_refl eq_refl)).
Defined.

(** C9 at a request that lists the same new address twice. *)
Lemma block_keeps_block_set_unique_witness :
  NoDup (storage.blockListItems
           (store (world (block x0 (iqSet (blockElem [juliet; juliet]))
                                (blockElem [juliet; juliet])
                                (world_of [] "both" noFailure))))).
Proof.
  apply (block_keeps_block_set_unique x0 (iqSet (blockElem [juliet; juliet]))
           (blockElem [juliet; juliet]) (world_of [] "both" noFailure)).
  simpl. constructor.
Defined.


(** The whole trace at that input, as far as the handler decides it: the
    two reads, the deletion, then the lookup of the nil pointer. *)
Example clear_all_with_an_unparsable_item :
  firstn 4 (events (unblock x0 (iqSet (unblockElem [])) (unblockElem [])
                            (world_of ["tybalt@"; juliet] "both" noFailure)))
  = [StorageCall (storage.CallFetchRosterItems "romeo");
     StorageCall (storage.CallFetchBlockListItems "romeo");
     StorageCall (storage.CallDeleteBlockList "romeo");
     LookupStreams Nil].
Proof. vm_compute. reflexivity. Qed.

(** ** The further properties at concrete requests *)

Definition tybalt : string := "tybalt@capulet.lit".

Definition writesDown : storage.Op -> option error :=
  fun op =>
    match op with
    | storage.OpFetchRosterItems | storage.OpFetchBlockListItems => None
    | _ => Some "storage: read-only"
    end.

(** A set IQ of another namespace. *)
Definition iqRoster : xml.IQ :=
  xml.mkIQ "q2" "set" [xml.Element "query" [("xmlns", "jabber:iq:roster")] []].

(** X2 at a request: a roster query is left alone. *)
Lemma unmatched_iq_is_ignored_witness :
  ProcessIQ x0 iqRoster (world_of [juliet] "both" noFailure)
  = mkOutcome tt (world_of [juliet] "both" noFailure) [].
Proof.
  exact (unmatched_iq_is_ignored x0 iqRoster (world_of [juliet] "both" noFailure)
           eq_refl eq_refl).
Defined.

(** X5 at a request: Romeo's block of Juliet is answered once. *)
Lemma matched_iq_is_answered_once_witness :
  answeredOnce x0 (iqSet (blockElem [juliet]))
               (ProcessIQ x0 (iqSet (blockElem [juliet])) (world_of [] "both" noFailure)).
Proof.
  exact (matched_iq_is_answered_once x0 (iqSet (blockElem [juliet]))
           (world_of [] "both" noFailure) eq_refl).
Defined.

(** X7 at a request: Juliet is blocked already, Tybalt is not; only
    Tybalt's item is handed to the storage. *)
Lemma block_writes_what_is_new_witness :
  writes (events (block x0 (iqSet (blockElem [juliet; tybalt])) (blockElem [juliet; tybalt])
                        (world_of [juliet] "both" noFailure)))
  = [storage.CallInsertOrUpdateBlockListItems [model.mkBlockListItem "romeo" tybalt]].
Proof.
  exact (block_writes_what_is_new x0 (iqSet (blockElem [juliet; tybalt]))
           (blockElem [juliet; tybalt]) (world_of [juliet] "both" noFailure)
           [J juliet; J tybalt] [model.mkRosterItem "romeo" juliet "both"]
           [model.mkBlockListItem "romeo" juliet] eq_refl eq_refl eq_refl).
Defined.

(** X8 at a request: Romeo blocks Tybalt, who is not in his roster, and
    Juliet, who is; only the presences of Juliet's two sessions are
    routed, each to Romeo's bare JID. *)
Lemma block_routes_exactly_witness :
  routed (events (block x0 (iqSet (blockElem [tybalt; juliet])) (blockElem [tybalt; juliet])
                        (world_of [] "both" noFailure)))
  = [xml.mkPresence "juliet@capulet.lit/balcony" romeo "unavailable" [];
     xml.mkPresence "juliet@capulet.lit/chamber" romeo "unavailable" []].
Proof.
  exact (block_routes_exactly x0 (iqSet (blockElem [tybalt; juliet]))
           (blockElem [tybalt; juliet]) (world_of [] "both" noFailure)
           [J tybalt; J juliet] [model.mkRosterItem "romeo" juliet "both"] []
           eq_refl eq_refl eq_refl).
Defined.

(** X9 at a request: Tybalt is not blocked; unblocking him still asks the
    storage for a deletion, of no item. *)
Lemma unblock_writes_what_is_blocked_witness :
  writes (events (unblock x0 (iqSet (unblockElem [tybalt])) (unblockElem [tybalt])
                          (world_of [juliet] "both" noFailure)))
  = [storage.CallDeleteBlockListItems []].
Proof.
  refine (unblock_writes_what_is_blocked x0 (iqSet (unblockElem [tybalt]))
            (unblockElem [tybalt]) (world_of [juliet] "both" noFailure)
            [J tybalt] [model.mkRosterItem "romeo" juliet "both"]
            [model.mkBlockListItem "romeo" juliet] _ eq_refl eq_refl eq_refl).
  discriminate.
Defined.

(** X10 at a request: Romeo unblocks Juliet. *)
Lemma unblock_routes_exactly_witness :
  routed (events (unblock x0 (iqSet (unblockElem [juliet])) (unblockElem [juliet])
                          (world_of [juliet] "both" noFailure)))
  = [xml.mkPresence "juliet@capulet.lit/balcony" romeo "available" (status "sighing");
     xml.mkPresence "juliet@capulet.lit/chamber" romeo "available" []].
Proof.
  refine (unblock_routes_exactly x0 (iqSet (unblockElem [juliet]))
            (unblockElem [juliet]) (world_of [juliet] "both" noFailure)
            [J juliet] [model.mkRosterItem "romeo" juliet "both"]
            [model.mkBlockListItem "romeo" juliet] _ eq_refl eq_refl eq_refl).
  discriminate.
Defined.

(** X11 at a request: the storage refuses writes; Romeo's block of Juliet
    fails, after the unavailable presences of her sessions were routed. *)
Lemma presences_precede_the_write_witness :
  exists pre call,
    events (block x0 (iqSet (blockElem [juliet])) (blockElem [juliet])
                  (world_of [] "both" writesDown))
    = pre ++ [StorageCall call; LogError "storage: read-only";
              SendElement 0 (xml.InternalServerError (iqSet (blockElem [juliet])))]
    /\ writes pre = [] /\ sent pre = []
    /\ routed pre
       = routed (events (block x0 (iqSet (blockElem [juliet])) (blockElem [juliet])
                               (world_of [] "both" writesDown))).
Proof.
  refine (proj1 (presences_precede_the_write x0 (iqSet (blockElem [juliet]))
                   (blockElem [juliet]) (world_of [] "both" writesDown)
                   [J juliet] [model.mkRosterItem "romeo" juliet "both"] []
                   "storage: read-only" _ eq_refl eq_refl eq_refl) _ eq_refl);
    discriminate.
Defined.

Example presences_routed_for_a_block_not_stored :
  let o := block x0 (iqSet (blockElem [juliet])) (blockElem [juliet])
                 (world_of [] "both" writesDown) in
  length (routed (events o)) = 2 /\ store (world o) = store (world_of [] "both" writesDown).
Proof. vm_compute. split; reflexivity. Qed.

(** X12 at two requests: the storage refuses writes, Romeo's clear-all
    fails and no presence is routed; the storage accepts them, and the
    presences of Juliet's two sessions are routed to Romeo's bare JID. *)
Lemma clear_all_deletes_first_witness :
  (routed (events (unblock x0 (iqSet (unblockElem [])) (unblockElem [])
                           (world_of [juliet] "both" writesDown))) = []
   /\ sent (events (unblock x0 (iqSet (unblockElem [])) (unblockElem [])
                            (world_of [juliet] "both" writesDown)))
      = [(0, xml.InternalServerError (iqSet (unblockElem [])))])
  /\ routed (events (unblock x0 (iqSet (unblockElem [])) (unblockElem [])
                             (world_of [juliet] "both" noFailure)))
     = [xml.mkPresence "juliet@capulet.lit/balcony" romeo "available" (status "sighing");
        xml.mkPresence "juliet@capulet.lit/chamber" romeo "available" []].
Proof.
  split.
  - exact (proj1 (proj2 (clear_all_deletes_first x0 (iqSet (unblockElem []))
                           (unblockElem []) (world_of [juliet] "both" writesDown)
                           [model.mkRosterItem "romeo" juliet "both"]
                           [model.mkBlockListItem "romeo" juliet] eq_refl eq_refl eq_refl))
             "storage: read-only" eq_refl).
  - refine (proj2 (proj2 (clear_all_deletes_first x0 (iqSet (unblockElem []))
                            (unblockElem []) (world_of [juliet] "both" noFailure)
                            [model.mkRosterItem "romeo" juliet "both"]
                            [model.mkBlockListItem "romeo" juliet] eq_refl eq_refl eq_refl))
              eq_refl _).
    constructor; [reflexivity|constructor].
Defined.

(** X13 at a request: Romeo's session in the street, which had not fetched
    the list, fetches it; his session in the orchard then blocks Juliet and
    the street is pushed to. *)
Lemma fetch_then_pushed_witness :
  exists id,
    sentTo 2 (events (block x0 (iqSet (blockElem [juliet])) (blockElem [juliet])
                            (world (sendBlockList (mkXEPBlockingCommand 2) iqGet
                                                  (world_of [] "both" noFailure)))))
    = [pushStanza id (blockElem [juliet])].
Proof.
  refine (proj1 (fetch_then_pushed (mkXEPBlockingCommand 2) x0 iqGet
                   (iqSet (blockElem [juliet])) (blockElem [juliet])
                   (world_of [] "both" noFailure) [] registry_lists_once _ _ eq_refl) _).
  - discriminate.
  - vm_compute. right. right. left. reflexivity.
  - vm_compute. left. reflexivity.
Defined.

(** X14 at two requests: Romeo blocks Juliet, then unblocks her. *)
Lemma block_then_unblock_witness :
  isJIDInBlockList juliet
    (blockSet x0
       (world (unblock x0 (iqSet (unblockElem [juliet])) (unblockElem [juliet])
                       (world (block x0 (iqSet (blockElem [juliet])) (blockElem [juliet])
                                     (world_of [] "both" noFailure))))))
  = false.
Proof.
  refine (proj2 (proj2 (proj2 (block_then_unblock x0 (iqSet (blockElem [juliet]))
                                 (iqSet (unblockElem [juliet])) (blockElem [juliet])
                                 (unblockElem [juliet]) (world_of [] "both" noFailure)
                                 [J juliet] _ eq_refl eq_refl _)))
                juliet (or_introl eq_refl)).
  - discriminate.
  - intros op. reflexivity.
Defined.

(** X15 at a request: the item Romeo's block hands to the storage is filed
    under his user name. *)
Lemma storage_calls_are_the_owners_witness :
  "romeo" = owner x0 (world_of [] "both" noFailure).
Proof.
  refine (storage_calls_are_the_owners x0 (iqSet (blockElem [juliet])) (blockElem [juliet])
            (world_of [] "both" noFailure)
            (storage.CallInsertOrUpdateBlockListItems [model.mkBlockListItem "romeo" juliet])
            "romeo" (or_intror (or_introl _)) (or_introl eq_refl)).
  vm_compute. right. right. left. reflexivity.
Defined.
